(** * Bulk campaign job engine of the SMTP2GO sender worker

    A shallow embedding of the Cloudflare Worker script (utility helpers,
    template renderer and the [JobStore] durable object) together with the
    properties of its job state machine.

    Conventions.  A JavaScript string is a [string]: one [ascii] per UTF-16
    code unit, so the development covers the code units below 256.  A
    JavaScript object used as a dictionary is a [gmap string value] whose
    misses fall through to [Object_prototype], as property reads do.  Numbers
    held by a job are integers and are kept in [Z]; the one place where the
    script leaves the integers, the completion percentage, is computed on
    binary64 floats. *)

From Stdlib Require Import ZArith Floats Uint63 String Ascii List Bool Lia.
From stdpp Require Import gmap strings.
Import ListNotations.

Local Open Scope string_scope.
Local Open Scope Z_scope.

(** ** JavaScript values *)

Module JS.

(** The values a recipient column, a template or an inherited property can
    hold.  [VNative n] is the built-in function object named [n] and
    [VObjectProto] is [Object.prototype] itself; both are only ever met
    through the prototype chain of an object literal. *)
Inductive value : Type :=
| VUndef
| VNull
| VBool (b : bool)
| VStr (s : string)
| VNative (name : string)
| VObjectProto.

(** ToBoolean *)
Definition truthy (v : value) : bool :=
  match v with
  | VUndef | VNull => false
  | VBool b => b
  | VStr s => negb (String.eqb s "")
  | VNative _ | VObjectProto => true
  end.

(** String(v) *)
Definition ToString (v : value) : string :=
  match v with
  | VUndef => "undefined"
  | VNull => "null"
  | VBool true => "true"
  | VBool false => "false"
  | VStr s => s
  | VNative n => "function " ++ n ++ "() { [native code] }"
  | VObjectProto => "[object Object]"
  end.

(** [a || b] *)
Definition or (a b : value) : value := if truthy a then a else b.

(** [v != null], false exactly on [null] and [undefined] *)
Definition non_nullish (v : value) : bool :=
  match v with
  | VUndef | VNull => false
  | _ => true
  end.

(** The properties every object literal inherits. *)
Definition Object_prototype (k : string) : option value :=
  if String.eqb k "constructor" then Some (VNative "Object")
  else if String.eqb k "hasOwnProperty" then Some (VNative "hasOwnProperty")
  else if String.eqb k "isPrototypeOf" then Some (VNative "isPrototypeOf")
  else if String.eqb k "propertyIsEnumerable" then Some (VNative "propertyIsEnumerable")
  else if String.eqb k "toLocaleString" then Some (VNative "toLocaleString")
  else if String.eqb k "toString" then Some (VNative "toString")
  else if String.eqb k "valueOf" then Some (VNative "valueOf")
  else if String.eqb k "__defineGetter__" then Some (VNative "__defineGetter__")
  else if String.eqb k "__defineSetter__" then Some (VNative "__defineSetter__")
  else if String.eqb k "__lookupGetter__" then Some (VNative "__lookupGetter__")
  else if String.eqb k "__lookupSetter__" then Some (VNative "__lookupSetter__")
  else if String.eqb k "__proto__" then Some VObjectProto
  else None.

(** [o[k]] on an object created by [{}]: own property first, then the
    prototype, else [undefined]. *)
Definition get (o : gmap string value) (k : string) : value :=
  match o !! k with
  | Some v => v
  | None => match Object_prototype k with
            | Some v => v
            | None => VUndef
            end
  end.

(** [k in o] *)
Definition has (o : gmap string value) (k : string) : bool :=
  match o !! k with
  | Some _ => true
  | None => match Object_prototype k with
            | Some _ => true
            | None => false
            end
  end.

(** An object as parsed from JSON: own enumerable properties in the order
    [Object.entries] lists them. *)
Definition object : Type := list (string * value).

Fixpoint own (o : object) (k : string) : option value :=
  match o with
  | [] => None
  | (k', v) :: o' => if String.eqb k' k then Some v else own o' k
  end.

(** [o?.k] for a parsed object. *)
Definition prop (o : object) (k : string) : value :=
  match own o k with
  | Some v => v
  | None => match Object_prototype k with
            | Some v => v
            | None => VUndef
            end
  end.

End JS.
Import JS.

(** ** Character classes of the regular expressions *)

Definition code (c : ascii) : N := N_of_ascii c.

Definition between (lo hi : N) (c : ascii) : bool :=
  (lo <=? code c)%N && (code c <=? hi)%N.

(** [\d] *)
Definition is_digit (c : ascii) : bool := between 48 57 c.

(** [[a-zA-Z]] *)
Definition is_alpha (c : ascii) : bool := between 65 90 c || between 97 122 c.

(** [\w] *)
Definition is_word (c : ascii) : bool :=
  is_alpha c || is_digit c || Ascii.eqb c "_".

(** [\s], which is also what [trim] removes: TAB, LF, VT, FF, CR, SP, NBSP *)
Definition is_space (c : ascii) : bool :=
  between 9 13 c || (code c =? 32)%N || (code c =? 160)%N.

(** [[a-zA-Z0-9._%+-]] *)
Definition is_local (c : ascii) : bool :=
  is_alpha c || is_digit c || Ascii.eqb c "." || Ascii.eqb c "_"
  || Ascii.eqb c "%" || Ascii.eqb c "+" || Ascii.eqb c "-".

(** [[a-zA-Z0-9.-]] *)
Definition is_domain (c : ascii) : bool :=
  is_alpha c || is_digit c || Ascii.eqb c "." || Ascii.eqb c "-".

(** [[\w\s.-]] *)
Definition is_key (c : ascii) : bool :=
  is_word c || is_space c || Ascii.eqb c "." || Ascii.eqb c "-".

(** ** Backtracking matchers

    Each quantifier takes the continuation that matches the rest of the
    pattern, and tries its alternatives in the order the engine does. *)

Section Matchers.
Context {R : Type}.

(** [cls*], longest first *)
Fixpoint greedy_star (cls : ascii -> bool) (k : string -> option R)
         (s : string) : option R :=
  match s with
  | String c s' =>
      if cls c then
        match greedy_star cls k s' with
        | Some r => Some r
        | None => k s
        end
      else k s
  | EmptyString => k s
  end.

(** [cls+], longest first *)
Definition greedy_plus (cls : ascii -> bool) (k : string -> option R)
           (s : string) : option R :=
  match s with
  | String c s' => if cls c then greedy_star cls k s' else None
  | EmptyString => None
  end.

(** [(cls+?)], shortest first; [acc] is the text captured so far *)
Fixpoint lazy_plus (cls : ascii -> bool) (acc : string)
         (k : string -> string -> option R) (s : string) : option R :=
  match s with
  | String c s' =>
      if cls c then
        let acc' := acc ++ String c EmptyString in
        match k acc' s' with
        | Some r => Some r
        | None => lazy_plus cls acc' k s'
        end
      else None
  | EmptyString => None
  end.

(** a literal character *)
Definition lit (a : ascii) (k : string -> option R) (s : string) : option R :=
  match s with
  | String c s' => if Ascii.eqb c a then k s' else None
  | EmptyString => None
  end.

(** one character of a class *)
Definition one (cls : ascii -> bool) (k : string -> option R)
           (s : string) : option R :=
  match s with
  | String c s' => if cls c then k s' else None
  | EmptyString => None
  end.

End Matchers.

(** [$] *)
Definition at_end (s : string) : option unit :=
  match s with
  | EmptyString => Some tt
  | String _ _ => None
  end.

(** ** Utility helpers *)

(** [/^[a-zA-Z0-9._%+-]+@[a-zA-Z0-9.-]+\.[a-zA-Z]{2,}$/.test(email || '')] *)
Definition email_re (s : string) : option unit :=
  greedy_plus is_local
    (lit "@"
       (greedy_plus is_domain
          (lit "."
             (one is_alpha (one is_alpha (greedy_star is_alpha at_end)))))) s.

Definition isValidEmail (email : value) : bool :=
  match email_re (ToString (JS.or email (VStr ""))) with
  | Some _ => true
  | None => false
  end.

(** [String.prototype.trim] *)
Fixpoint trim_start (s : string) : string :=
  match s with
  | String c s' => if is_space c then trim_start s' else s
  | EmptyString => EmptyString
  end.

Fixpoint trim_end (s : string) : string :=
  match s with
  | String c s' =>
      match trim_end s' with
      | EmptyString => if is_space c then EmptyString else String c EmptyString
      | r => String c r
      end
  | EmptyString => EmptyString
  end.

Definition trim (s : string) : string := trim_end (trim_start s).

(** [.replace(/\W|^(?=\d)/g, '_')]: every non-word character becomes an
    underscore, and the empty match in front of a leading digit inserts
    one.  [bol] tells whether the scan stands at index 0. *)
Fixpoint replace_nonword (bol : bool) (s : string) : string :=
  match s with
  | String c s' =>
      if negb (is_word c) then String "_" (replace_nonword false s')
      else if bol && is_digit c then String "_" (String c (replace_nonword false s'))
      else String c (replace_nonword false s')
  | EmptyString => EmptyString
  end.

(** [.replace(/^_+|_+$/g, '')]: [^_+] can only match at index 0 and takes
    the whole leading run; [_+$] matches at the first index from which only
    underscores remain. *)
Fixpoint strip_leading (s : string) : string :=
  match s with
  | String c s' => if Ascii.eqb c "_" then strip_leading s' else s
  | EmptyString => EmptyString
  end.

Fixpoint all_underscore (s : string) : bool :=
  match s with
  | String c s' => Ascii.eqb c "_" && all_underscore s'
  | EmptyString => true
  end.

Fixpoint strip_trailing (s : string) : string :=
  match s with
  | String c s' =>
      if Ascii.eqb c "_" && all_underscore s' then EmptyString
      else String c (strip_trailing s')
  | EmptyString => EmptyString
  end.

Definition strip_underscores (s : string) : string :=
  strip_trailing (strip_leading s).

Definition normalizeColumnName (name : string) : string :=
  let r := strip_underscores (replace_nonword true (trim name)) in
  if String.eqb r "" then "col" else r.

(** ** Template renderer *)

(** One attempt of [/{{\s*([\w\s.-]+?)\s*}}/] at the head of [s]: the
    captured group and the text left after the match. *)
Definition match_placeholder (s : string) : option (string * string) :=
  lit "{" (lit "{"
    (greedy_star is_space
       (lazy_plus is_key EmptyString
          (fun p1 =>
             greedy_star is_space
               (lit "}" (lit "}" (fun rest => Some (p1, rest)))))))) s.

Fixpoint str_take (n : nat) (s : string) : string :=
  match n, s with
  | S n', String c s' => String c (str_take n' s')
  | _, _ => EmptyString
  end.

(** [s.replace(re, cb)] with the global flag: the scan copies characters
    until an attempt succeeds, hands the match [m] and its group [p1] to
    the callback, and resumes after the match.  [skip] counts the
    characters of the current match still to be passed over. *)
Fixpoint replace_placeholders (cb : string -> string -> string)
         (skip : nat) (s : string) : string :=
  match s with
  | EmptyString => EmptyString
  | String c s' =>
      match skip with
      | S n => replace_placeholders cb n s'
      | O =>
          match match_placeholder s with
          | Some (p1, rest) =>
              let len := (String.length s - String.length rest)%nat in
              cb (str_take len s) p1 ++ replace_placeholders cb (len - 1) s'
          | None => String c (replace_placeholders cb 0 s')
          end
      end
  end.

Definition processTemplate (tmpl : value) (ctx : gmap string value) : string :=
  match tmpl with
  | VStr t =>
      replace_placeholders
        (fun m p1 =>
           let key := normalizeColumnName (trim p1) in
           if non_nullish (JS.get ctx key) then ToString (JS.get ctx key) else m)
        0 t
  | _ => EmptyString
  end.

(** T contains a placeholder when the pattern matches at some index. *)
Fixpoint has_placeholder (s : string) : bool :=
  match s with
  | EmptyString => false
  | String c s' =>
      match match_placeholder s with
      | Some _ => true
      | None => has_placeholder s'
      end
  end.


(** ** The worker's data *)

(** An entry of the failures ledger. *)
Record Failure : Type := mkFailure {
  i : Z;
  email : value;
  error : string
}.

(** The record kept under the storage key ['job']. *)
Record Job : Type := mkJob {
  id : string;
  created : Z;
  total : Z;
  recipients : list JS.object;
  processed : Z;
  success : Z;
  failed : Z;
  failures : list Failure;
  interval : Z;
  subjectTmpl : value;
  htmlTmpl : value;
  fromEmailTmpl : value;
  fromNameTmpl : value;
  in_progress : bool;
  current : value;
  last_tick : Z
}.

(** The body handed to the transport. *)
Record Payload : Type := mkPayload {
  to : list value;
  sender : value;
  subject : string;
  html_body : string
}.

(** The bindings of the worker. *)
Record Env : Type := mkEnv {
  SMTP2GO_API_URL : value;
  SMTP2GO_API_KEY : value;
  DEFAULT_SENDER_EMAIL : value;
  DEFAULT_SENDER_NAME : value
}.

(** What surrounds one execution of a handler: the bindings, the clock
    ([Date.now()]), the answer of the SMTP2GO endpoint to a payload ([None]
    when the call returns, [Some msg] when it ends in an [Error] with that
    message), and whether a storage write goes through. *)
Record Host : Type := mkHost {
  env : Env;
  now : Z;
  smtp2go : Payload -> option string;
  put_ok : bool
}.

(** The durable object's storage: the value under ['job'] and the alarm. *)
Record Storage : Type := mkStorage {
  stored_job : option Job;
  armed : option Z
}.

(** What a handler does to the outside, in order. *)
Inductive event : Type :=
| EvGet
| EvPut (j : Job)
| EvSetAlarm (t : Z)
| EvDispatch (p : Payload).

(** A value in a JSON body. *)
Inductive field : Type :=
| FNum (n : Z)
| FBool (b : bool)
| FStr (s : string)
| FVal (v : value)
| FRecipients (l : list JS.object)
| FFailures (l : list Failure).

Definition jobject : Type := list (string * field).

Record Response : Type := mkResponse {
  status_code : Z;
  body : jobject
}.

(** ** Handlers as state transformers that may throw *)

Inductive result (A : Type) : Type :=
| Ret (a : A)
| Throw (msg : string).
Arguments Ret {A} a.
Arguments Throw {A} msg.

Definition M (A : Type) : Type :=
  Storage * list event -> result A * (Storage * list event).

Definition ret {A} (a : A) : M A := fun s => (Ret a, s).

Definition throw {A} (msg : string) : M A := fun s => (Throw msg, s).

Definition bind {A B} (m : M A) (f : A -> M B) : M B :=
  fun s =>
    match m s with
    | (Ret a, s') => f a s'
    | (Throw msg, s') => (Throw msg, s')
    end.

(** [try { m } catch (e) { h(e.message) }] *)
Definition try_catch {A} (m : M A) (h : string -> M A) : M A :=
  fun s =>
    match m s with
    | (Ret a, s') => (Ret a, s')
    | (Throw msg, s') => h msg s'
    end.

Notation "x <- m ;; k" := (bind m (fun x => k))
  (at level 100, m at next level, right associativity).
Notation "m ;;; k" := (bind m (fun _ => k))
  (at level 100, right associativity).

Definition emit (e : event) : M unit :=
  fun '(st, tr) => (Ret tt, (st, (tr ++ [e])%list)).

(** [state.storage.get('job')] *)
Definition storage_get : M (option Job) :=
  fun '(st, tr) => (Ret (stored_job st), (st, (tr ++ [EvGet])%list)).

(** [state.storage.put('job', job)]; a failed write throws and stores nothing *)
Definition storage_put (h : Host) (job : Job) : M unit :=
  fun '(st, tr) =>
    if put_ok h
    then (Ret tt, (mkStorage (Some job) (armed st), (tr ++ [EvPut job])%list))
    else (Throw "storage put failed", (st, tr)).

(** [state.storage.setAlarm(t)] *)
Definition storage_setAlarm (t : Z) : M unit :=
  fun '(st, tr) => (Ret tt, (mkStorage (stored_job st) (Some t), (tr ++ [EvSetAlarm t])%list)).

(** [fetchSMTP2GO(env, payload)]: the key check, then the call. *)
Definition fetchSMTP2GO (h : Host) (payload : Payload) : M unit :=
  emit (EvDispatch payload) ;;;
  if negb (truthy (SMTP2GO_API_KEY (env h))) then throw "Missing SMTP2GO_API_KEY"
  else match smtp2go h payload with
       | None => ret tt
       | Some msg => throw msg
       end.

(** ** Job updates *)

Definition set_in_progress (b : bool) (j : Job) : Job :=
  mkJob (id j) (created j) (total j) (recipients j) (processed j) (success j)
        (failed j) (failures j) (interval j) (subjectTmpl j) (htmlTmpl j)
        (fromEmailTmpl j) (fromNameTmpl j) b (current j) (last_tick j).

(** [job.failed += 1; job.failures.push(f)] *)
Definition push_failure (f : Failure) (j : Job) : Job :=
  mkJob (id j) (created j) (total j) (recipients j) (processed j) (success j)
        (failed j + 1) (failures j ++ [f])%list (interval j) (subjectTmpl j) (htmlTmpl j)
        (fromEmailTmpl j) (fromNameTmpl j) (in_progress j) (current j) (last_tick j).

(** [job.success += 1] *)
Definition count_success (j : Job) : Job :=
  mkJob (id j) (created j) (total j) (recipients j) (processed j) (success j + 1)
        (failed j) (failures j) (interval j) (subjectTmpl j) (htmlTmpl j)
        (fromEmailTmpl j) (fromNameTmpl j) (in_progress j) (current j) (last_tick j).

(** [job.processed += 1; job.current = cur] *)
Definition advance (cur : value) (j : Job) : Job :=
  mkJob (id j) (created j) (total j) (recipients j) (processed j + 1) (success j)
        (failed j) (failures j) (interval j) (subjectTmpl j) (htmlTmpl j)
        (fromEmailTmpl j) (fromNameTmpl j) (in_progress j) cur (last_tick j).

(** [job.recipients[idx]] *)
Definition recipient_at (l : list JS.object) (idx : Z) : option JS.object :=
  if idx <? 0 then None else nth_error l (Z.to_nat idx).

(** [recipient?.k] *)
Definition opt_prop (r : option JS.object) (k : string) : value :=
  match r with
  | Some o => JS.prop o k
  | None => VUndef
  end.

(** [const ctx = {}; for (const [k, v] of Object.entries(recipient))
    ctx[normalizeColumnName(k)] = v] *)
Definition build_ctx (recipient : JS.object) : gmap string value :=
  fold_left (fun ctx kv => <[normalizeColumnName (fst kv) := snd kv]> ctx)
            recipient ∅.

(** The payload of the tick for [recipient]. *)
Definition make_payload (h : Host) (job : Job) (emailAddress : value)
           (recipient : JS.object) : Payload :=
  let ctx := build_ctx recipient in
  let subject := processTemplate (subjectTmpl job) ctx in
  let html_body := processTemplate (htmlTmpl job) ctx in
  let senderEmail :=
    if truthy (fromEmailTmpl job) then VStr (processTemplate (fromEmailTmpl job) ctx)
    else DEFAULT_SENDER_EMAIL (env h) in
  let senderName :=
    if truthy (fromNameTmpl job) then VStr (processTemplate (fromNameTmpl job) ctx)
    else DEFAULT_SENDER_NAME (env h) in
  let senderVal :=
    if truthy senderName
    then VStr (ToString senderName ++ " <" ++ ToString senderEmail ++ ">")
    else senderEmail in
  mkPayload [emailAddress] senderVal subject html_body.

(** ** The durable object *)

Record InitBody : Type := mkInitBody {
  init_id : string;
  init_recipients : list JS.object;
  init_subjectTmpl : value;
  init_htmlTmpl : value;
  init_interval : Z;
  init_fromEmailTmpl : value;
  init_fromNameTmpl : value
}.

Definition fresh_job (h : Host) (b : InitBody) : Job :=
  mkJob (init_id b) (now h) (Z.of_nat (List.length (init_recipients b)))
        (init_recipients b) 0 0 0 [] (init_interval b)
        (init_subjectTmpl b) (init_htmlTmpl b)
        (init_fromEmailTmpl b) (init_fromNameTmpl b)
        true (VStr "Initializing...") 0.

Definition init (h : Host) (b : InitBody) : M Response :=
  let job := fresh_job h b in
  storage_put h job ;;;
  storage_setAlarm (now h + init_interval b * 1000) ;;;
  ret (mkResponse 200 [("ok", FBool true)]).

(** The binary64 number of an integer (exact up to 2^53, the range the
    counters of a job live in). *)
Definition num (z : Z) : float :=
  if z <? 0 then PrimFloat.opp (PrimFloat.of_uint63 (Uint63.of_Z (- z)))
  else PrimFloat.of_uint63 (Uint63.of_Z z).

(** [Math.floor] of a finite number, as an integer.  The quotient of two
    integers with a non-zero divisor is finite, so is its product with 100;
    the last case is never met by [completion_percentage]. *)
Definition Math_floor (x : float) : Z :=
  match Prim2SF x with
  | S754_finite s m e =>
      let n := if s then Z.neg m else Z.pos m in
      if 0 <=? e then n * 2 ^ e else n / 2 ^ (- e)
  | _ => 0
  end.

(** [Math.floor((p / t) * 100)] *)
Definition percent_floor (p t : Z) : Z :=
  Math_floor (PrimFloat.mul (PrimFloat.div (num p) (num t)) (num 100)).

(** [job.total ? Math.floor((job.processed / job.total) * 100) : 0] *)
Definition completion_percentage (job : Job) : Z :=
  if total job =? 0 then 0 else percent_floor (processed job) (total job).

(** The own properties of the job object, in creation order. *)
Definition object_of_job (j : Job) : jobject :=
  [ ("id", FStr (id j));
    ("created", FNum (created j));
    ("total", FNum (total j));
    ("recipients", FRecipients (recipients j));
    ("processed", FNum (processed j));
    ("success", FNum (success j));
    ("failed", FNum (failed j));
    ("failures", FFailures (failures j));
    ("interval", FNum (interval j));
    ("subjectTmpl", FVal (subjectTmpl j));
    ("htmlTmpl", FVal (htmlTmpl j));
    ("fromEmailTmpl", FVal (fromEmailTmpl j));
    ("fromNameTmpl", FVal (fromNameTmpl j));
    ("in_progress", FBool (in_progress j));
    ("current", FVal (current j));
    ("last_tick", FNum (last_tick j)) ].

(** [delete o.k] *)
Fixpoint obj_delete (k : string) (o : jobject) : jobject :=
  match o with
  | [] => []
  | (k', v) :: o' => if String.eqb k' k then obj_delete k o' else (k', v) :: obj_delete k o'
  end.

(** [o.k = v] *)
Fixpoint obj_set (k : string) (v : field) (o : jobject) : jobject :=
  match o with
  | [] => [(k, v)]
  | (k', v') :: o' => if String.eqb k' k then (k, v) :: o' else (k', v') :: obj_set k v o'
  end.

Fixpoint obj_get (k : string) (o : jobject) : option field :=
  match o with
  | [] => None
  | (k', v) :: o' => if String.eqb k' k then Some v else obj_get k o'
  end.

Definition status : M Response :=
  job <- storage_get ;;
  match job with
  | None => ret (mkResponse 404 [("error", FStr "Missing")])
  | Some job =>
      let copy := object_of_job job in
      let copy := obj_delete "recipients" copy in
      let copy := obj_set "completion_percentage" (FNum (completion_percentage job)) copy in
      ret (mkResponse 200 copy)
  end.

(** The outcome recorded for the recipient at the cursor. *)
Definition process_recipient (h : Host) (job : Job) (idx : Z)
           (recipient : option JS.object) (emailAddress : value) : M Job :=
  if negb (isValidEmail emailAddress) then
    ret (push_failure
           (mkFailure idx (JS.or emailAddress (VStr "(missing)")) "Invalid email") job)
  else
    try_catch
      (match recipient with
       | Some r =>
           fetchSMTP2GO h (make_payload h job emailAddress r) ;;;
           ret (count_success job)
       | None => throw "Cannot convert undefined or null to object"
       end)
      (fun msg => ret (push_failure (mkFailure idx emailAddress (str_take 180 msg)) job)).

Definition alarm (h : Host) : M unit :=
  job <- storage_get ;;
  match job with
  | None => ret tt
  | Some job =>
      if negb (in_progress job) then ret tt
      else if total job <=? processed job then
        storage_put h (set_in_progress false job)
      else
        let idx := processed job in
        let recipient := recipient_at (recipients job) idx in
        let emailAddress :=
          JS.or (JS.or (opt_prop recipient "Email") (opt_prop recipient "email"))
                (VStr "") in
        job <- process_recipient h job idx recipient emailAddress ;;
        let job := advance (JS.or emailAddress (VStr "N/A")) job in
        storage_put h job ;;;
        if processed job <? total job
        then storage_setAlarm (now h + interval job * 1000)
        else ret tt
  end.

(** ** Running handlers *)

Definition run {A} (m : M A) (st : Storage) : result A * (Storage * list event) :=
  m (st, []).

Definition store_after {A} (m : M A) (st : Storage) : Storage := fst (snd (run m st)).

Definition trace_of {A} (m : M A) (st : Storage) : list event := snd (snd (run m st)).

Definition outcome_of {A} (m : M A) (st : Storage) : result A := fst (run m st).

(** One tick, then the next, each in its own surroundings. *)
Definition ticks (hs : list Host) (st : Storage) : Storage :=
  fold_left (fun st h => store_after (alarm h) st) hs st.

Definition empty_storage : Storage := mkStorage None None.

(** The states a job passes through: what a successful [init] leaves, and
    what any tick makes of such a state. *)
Inductive reachable : Storage -> Prop :=
| reach_init h b st :
    put_ok h = true -> reachable (store_after (init h b) st)
| reach_tick h st :
    reachable st -> reachable (store_after (alarm h) st).

Definition dispatched (tr : list event) : list Payload :=
  flat_map (fun e => match e with EvDispatch p => [p] | _ => [] end) tr.

Definition is_set_alarm (e : event) : bool :=
  match e with EvSetAlarm _ => true | _ => false end.

Definition is_put (e : event) : bool :=
  match e with EvPut _ => true | _ => false end.

(** ** Vocabulary of the properties *)

Fixpoint all_word (s : string) : bool :=
  match s with
  | String c s' => is_word c && all_word s'
  | EmptyString => true
  end.

(** A continuation that, when it succeeds, leaves a proper suffix of its
    input after at least [n] characters. *)
Definition consumes (n : nat) (k : string -> option (string * string)) : Prop :=
  forall s p rest, k s = Some (p, rest) ->
    exists m, s = m ++ rest /\ (n <= String.length m)%nat.

Fixpoint str_drop (n : nat) (s : string) : string :=
  match n, s with
  | S n', String _ s' => str_drop n' s'
  | _, _ => s
  end.

(** Every placeholder the scan of a template finds satisfies [P]. *)
Inductive each_placeholder (P : string -> string -> Prop) : string -> Prop :=
| each_end : each_placeholder P EmptyString
| each_copy c s :
    match_placeholder (String c s) = None ->
    each_placeholder P s -> each_placeholder P (String c s)
| each_match m p1 rest :
    match_placeholder (m ++ rest) = Some (p1, rest) ->
    P m p1 -> each_placeholder P rest -> each_placeholder P (m ++ rest).

(** The address the tick resolves for the recipient at the cursor. *)
Definition resolved_email (j : Job) : value :=
  let recipient := recipient_at (recipients j) (processed j) in
  JS.or (JS.or (opt_prop recipient "Email") (opt_prop recipient "email")) (VStr "").

(** The error [fetchSMTP2GO] ends in, if any. *)
Definition dispatch_error (h : Host) (p : Payload) : option string :=
  if negb (truthy (SMTP2GO_API_KEY (env h))) then Some "Missing SMTP2GO_API_KEY"
  else smtp2go h p.

(** The job after the recipient at the cursor has been handled, and the
    transport calls made for it. *)
Definition handled (h : Host) (j : Job) : Job * list event :=
  let e := resolved_email j in
  if negb (isValidEmail e) then
    (push_failure
       (mkFailure (processed j) (JS.or e (VStr "(missing)")) "Invalid email") j, [])
  else
    match recipient_at (recipients j) (processed j) with
    | Some o =>
        let p := make_payload h j e o in
        (match dispatch_error h p with
         | None => count_success j
         | Some msg => push_failure (mkFailure (processed j) e (str_take 180 msg)) j
         end, [EvDispatch p])
    | None =>
        (push_failure
           (mkFailure (processed j) e
                      (str_take 180 "Cannot convert undefined or null to object")) j, [])
    end.

(** The job a tick writes when recipients are left. *)
Definition ticked (h : Host) (j : Job) : Job :=
  advance (JS.or (resolved_email j) (VStr "N/A")) (fst (handled h j)).

Definition counters_ok (j : Job) : Prop :=
  processed j = success j + failed j /\ processed j <= total j.

(** Every [setAlarm] of a trace comes after a [put]. *)
Fixpoint put_before_alarm (written : bool) (tr : list event) : bool :=
  match tr with
  | [] => true
  | EvPut _ :: tr' => put_before_alarm true tr'
  | EvSetAlarm _ :: tr' => written && put_before_alarm written tr'
  | _ :: tr' => put_before_alarm written tr'
  end.

(** The computed percentage is the exact one or the one below it. *)
Definition percent_close (p t : Z) : bool :=
  let c := percent_floor p t in
  let e := p * 100 / t in
  (c =? e) || (c =? e - 1).

(** [percent_close] at the cursors [p], [p + 1], ... ([n] of them) *)
Fixpoint cursors_close (t p : Z) (n : nat) : bool :=
  match n with
  | O => true
  | S n' => percent_close p t && cursors_close t (p + 1) n'
  end.

(** [percent_close] at every cursor of the totals [t], [t + 1], ... ([n] of
    them) *)
Fixpoint totals_close (t : Z) (n : nat) : bool :=
  match n with
  | O => true
  | S n' => cursors_close t 0 (Z.to_nat t + 1) && totals_close (t + 1) n'
  end.

(** ** Sample surroundings and jobs *)

Definition host_ok : Host :=
  mkHost (mkEnv (VStr "https://api.smtp2go.com/v3") (VStr "key")
                (VStr "noreply@x.com") (VStr "Sender"))
         1000 (fun _ => None) true.

Definition host_storage_down : Host :=
  mkHost (env host_ok) 2000 (fun _ => None) false.

Definition body_of (rs : list JS.object) (html : string) : InitBody :=
  mkInitBody "job-1" rs (VStr "Hi") (VStr html) 1 (VStr "") (VStr "").

Definition body_A : InitBody := body_of [[("Email", VStr "a@x.com")]] "Hello {{Email}}".

Definition body_B : InitBody := body_of [[("Email", VStr "not-an-email")]] "Hello {{Email}}".

Definition body_upper : InitBody := body_of [[("EMAIL", VStr "a@x.com")]] "Hello {{Email}}".

Definition body_100 : InitBody :=
  body_of (repeat [("Email", VStr "a@x.com")] 100) "Hello {{Email}}".

Definition started (b : InitBody) : Storage :=
  store_after (init host_ok b) empty_storage.

Definition job_A1 : Job :=
  mkJob "job-1" 1000 1 [[("Email", VStr "a@x.com")]] 1 1 0 [] 1
        (VStr "Hi") (VStr "Hello {{Email}}") (VStr "") (VStr "")
        true (VStr "a@x.com") 0.

Definition job_A0 : Job :=
  mkJob "job-1" 1000 1 [[("Email", VStr "a@x.com")]] 0 0 0 [] 1
        (VStr "Hi") (VStr "Hello {{Email}}") (VStr "") (VStr "")
        true (VStr "Initializing...") 0.

Definition job_B0 : Job :=
  mkJob "job-1" 1000 1 [[("Email", VStr "not-an-email")]] 0 0 0 [] 1
        (VStr "Hi") (VStr "Hello {{Email}}") (VStr "") (VStr "")
        true (VStr "Initializing...") 0.

(** ** Vocabulary of the further properties *)

From Stdlib Require Import Sorted.

(** Every character of [s] is in the class. *)
Fixpoint all_in (cls : ascii -> bool) (s : string) : bool :=
  match s with
  | String c s' => cls c && all_in cls s'
  | EmptyString => true
  end.

(** The language of the address pattern: a local part, "@", a domain, ".",
    and at least two letters. *)
Definition email_shape (s : string) : Prop :=
  exists l d t,
    s = l ++ "@" ++ d ++ "." ++ t /\
    l <> "" /\ all_in is_local l = true /\
    d <> "" /\ all_in is_domain d = true /\
    (2 <= String.length t)%nat /\ all_in is_alpha t = true.

(** The last column of a parsed recipient whose normalised name is [n]. *)
Fixpoint last_column (r : JS.object) (n : string) : option value :=
  match r with
  | [] => None
  | (k, v) :: r' =>
      match last_column r' n with
      | Some v' => Some v'
      | None => if String.eqb (normalizeColumnName k) n then Some v else None
      end
  end.

Fixpoint last_char (c : ascii) (s : string) : ascii :=
  match s with
  | String d s' => last_char d s'
  | EmptyString => c
  end.

(** A key as it stands between the blanks of a placeholder: key characters,
    the first and the last of them no blank. *)
Definition tight_key (k : string) : bool :=
  match k with
  | String c k' => all_in is_key k && negb (is_space c) && negb (is_space (last_char c k'))
  | EmptyString => false
  end.

(** The text the pattern tries behind the captured group. *)
Definition closing (p1 : string) : string -> option (string * string) :=
  greedy_star is_space (lit "}" (lit "}" (fun rest => Some (p1, rest)))).

(** The ledger of a job: as many entries as failures counted, each for a
    recipient already passed and with an error text of at most 180
    characters, in the order of the recipients. *)
Definition ledger_ok (j : Job) : Prop :=
  failed j = Z.of_nat (List.length (failures j)) /\
  Forall (fun f => 0 <= i f < processed j /\ (String.length (error f) <= 180)%nat)
         (failures j) /\
  StronglySorted (fun f g => i f < i g) (failures j).

(** What a tick never touches. *)
Definition same_campaign (j j' : Job) : Prop :=
  id j' = id j /\ created j' = created j /\ total j' = total j /\
  recipients j' = recipients j /\ interval j' = interval j /\
  subjectTmpl j' = subjectTmpl j /\ htmlTmpl j' = htmlTmpl j /\
  fromEmailTmpl j' = fromEmailTmpl j /\ fromNameTmpl j' = fromNameTmpl j /\
  last_tick j' = last_tick j.

(** The percentage at both ends of the totals [t], [t + 1], ... ([n] of
    them). *)
Fixpoint ends_exact (t : Z) (n : nat) : bool :=
  match n with
  | O => true
  | S n' =>
      (percent_floor 0 t =? 0) && (percent_floor t t =? 100) && ends_exact (t + 1) n'
  end.
(** ** The object's request entry *)

(** A request as the object's [fetch] reads it: path, method, and the body
    as [request.json()] gives it ([None] when there is none to parse). *)
Record DoRequest : Type := mkDoRequest {
  do_pathname : string;
  do_method : string;
  do_json : option InitBody
}.

Inductive DoResponse : Type :=
| DoJson (r : Response)
| DoText (code : Z) (text : string).

Definition JobStore_fetch (h : Host) (request : DoRequest) : M DoResponse :=
  if String.eqb (do_pathname request) "/job/init" && String.eqb (do_method request) "POST"
  then
    match do_json request with
    | Some b => r <- init h b ;; ret (DoJson r)
    | None => throw "Unexpected end of JSON input"
    end
  else if String.eqb (do_pathname request) "/job/status"
  then r <- status ;; ret (DoJson r)
  else if String.eqb (do_pathname request) "/job/alarm"
  then ret (DoText 200 "OK")
  else ret (DoText 404 "Not found").

(** ** The worker's requests and responses *)

Record File : Type := mkFile {
  file_name : string;
  file_type : string;
  file_bytes : string
}.

(** [file.size] *)
Definition file_size (f : File) : Z := Z.of_nat (String.length (file_bytes f)).

Inductive FormValue : Type :=
| FormText (s : string)
| FormFile (f : File).

(** What [request.json()] gives: a syntax error, [null], or an object.  A
    body that is a number, a string or an array has none of the properties
    the handlers read and stands as the empty object. *)
Inductive JsonBody : Type :=
| JsonInvalid (msg : string)
| JsonNull
| JsonObject (o : gmap string value).

(** A request as the handlers read it: method, path, the content-type
    header ([None] when absent), and the body under each of the three
    readings [parseFormData] may take. *)
Record Request : Type := mkRequest {
  method : string;
  pathname : string;
  content_type : option string;
  json_body : JsonBody;
  form_entries : list (string * FormValue);
  url_params : list (string * string)
}.

(** A JSON value in a response of the worker; [WView] is the object the
    durable object answered, [WText] the parsed answer of SMTP2GO. *)
#[warnings="-register-all"] Inductive WJson : Type :=
| WNull
| WBool (b : bool)
| WNum (n : Z)
| WStr (s : string)
| WView (o : jobject)
| WText (txt : string)
| WObj (l : list (string * WJson)).

Inductive WResponse : Type :=
| PlainText (code : Z) (text : string)
| Json (code : Z) (body : WJson).

Record Attachment : Type := mkAttachment {
  filename : string;
  fileblob : string;
  mimetype : string
}.

(** What [JSON.parse] makes of the recipients text. *)
Inductive Parsed : Type :=
| ParseError
| ParsedOther
| ParsedArray (l : list JS.object).

(** What surrounds one request to the worker, besides the [Host]: the id
    [crypto.randomUUID()] draws, [JSON.parse], the base64 text of a file
    ([btoa] of its bytes, which may throw), and the answer of SMTP2GO to a
    single send ([Ret] its parsed body, [Throw] the message of the error). *)
Record Platform : Type := mkPlatform {
  host : Host;
  randomUUID : string;
  JSON_parse : string -> Parsed;
  read_base64 : File -> result string;
  smtp2go_single : Payload -> list Attachment -> result string
}.

(** The durable objects of the namespace, by name. *)
Definition storage_of (ns : gmap string Storage) (name : string) : Storage :=
  match ns !! name with
  | Some st => st
  | None => empty_storage
  end.

(** What a handler leaves: the response or the error it ends in, the
    storages, and the payloads it called [fetchSMTP2GO] with. *)
Record WOutcome : Type := mkWOutcome {
  reply : result WResponse;
  spaces : gmap string Storage;
  mails : list (Payload * list Attachment)
}.

Definition andThen {A B} (r : result A) (f : A -> result B) : result B :=
  match r with
  | Ret a => f a
  | Throw msg => Throw msg
  end.

(** [json({ success: false, error }, status)] *)
Definition failure_json (code : Z) (msg : string) : WResponse :=
  Json code (WObj [("success", WBool false); ("error", WStr msg)]).

(** ** Reading the body *)

(** [s.includes(p)] *)
Fixpoint str_includes (p s : string) : bool :=
  String.prefix p s ||
  match s with
  | String _ s' => str_includes p s'
  | EmptyString => false
  end.

(** [fields[key] = value] for a string value on an object literal: the name
    "__proto__" is an accessor that ignores strings. *)
Definition assign (fields : gmap string value) (key text : string) : gmap string value :=
  if String.eqb key "__proto__" then fields else <[key := VStr text]> fields.

Definition collect_entry (acc : gmap string value * list (string * File))
           (entry : string * FormValue) : gmap string value * list (string * File) :=
  match snd entry with
  | FormFile f => (fst acc, (snd acc ++ [(fst entry, f)])%list)
  | FormText s => (assign (fst acc) (fst entry) s, snd acc)
  end.

(** The fields ([None] for [null]) and the files of a request. *)
Definition parseFormData (request : Request)
  : result (option (gmap string value) * list (string * File)) :=
  let contentType := match content_type request with Some s => s | None => "" end in
  if str_includes "application/json" contentType then
    match json_body request with
    | JsonInvalid msg => Throw msg
    | JsonNull => Ret (None, [])
    | JsonObject o => Ret (Some o, [])
    end
  else if String.prefix "multipart/form-data" contentType then
    let '(fields, files) := fold_left collect_entry (form_entries request) (∅, []) in
    Ret (Some fields, files)
  else if str_includes "application/x-www-form-urlencoded" contentType then
    Ret (Some (fold_left (fun fields kv => assign fields (fst kv) (snd kv))
                         (url_params request) ∅), [])
  else Ret (Some ∅, []).

(** [fields.k] *)
Definition field_of (fields : option (gmap string value)) (k : string) : result value :=
  match fields with
  | Some o => Ret (JS.get o k)
  | None => Throw ("Cannot read properties of null (reading '" ++ k ++ "')")
  end.

(** [v.trim()] for a truthy [v] or the empty string *)
Definition trim_value (v : value) : result string :=
  match v with
  | VStr s => Ret (trim s)
  | _ => Throw "trim is not a function"
  end.

(** ** Single send *)

(** The loop over the files under the key "attachments": the running size
    is checked before a file is read. *)
Fixpoint read_attachments (pf : Platform) (files : list File) (totalBytes : Z)
         (attachments : list Attachment) : result (list Attachment + WResponse) :=
  match files with
  | [] => Ret (inl attachments)
  | file :: rest =>
      let totalBytes := totalBytes + file_size file in
      if 5 * 1024 * 1024 <? totalBytes
      then Ret (inr (failure_json 413 "Attachments exceed 5MB limit."))
      else
        match read_base64 pf file with
        | Throw msg => Throw msg
        | Ret b64 =>
            read_attachments pf rest totalBytes
              (attachments ++
               [mkAttachment (file_name file) b64
                  (if String.eqb (file_type file) "" then "application/octet-stream"
                   else file_type file)])%list
        end
  end.

(** [fetchSMTP2GO(env, payload)] for a payload with attachments *)
Definition fetchSMTP2GO_single (pf : Platform) (payload : Payload)
           (attachments : list Attachment) : result string :=
  if negb (truthy (SMTP2GO_API_KEY (env (host pf)))) then Throw "Missing SMTP2GO_API_KEY"
  else smtp2go_single pf payload attachments.

Definition non_empty (s : string) : bool := negb (String.eqb s "").

(** The handler's result before the storages are put beside it. *)
Definition singleSend_run (pf : Platform) (request : Request)
  : result WResponse * list (Payload * list Attachment) :=
  match parseFormData request with
  | Throw msg => (Throw msg, [])
  | Ret (fields, files) =>
    match
      andThen (field_of fields "to_email") (fun v =>
      andThen (trim_value (JS.or v (VStr ""))) (fun to =>
      andThen (field_of fields "subject") (fun v =>
      andThen (trim_value (JS.or v (VStr ""))) (fun subject =>
      andThen (field_of fields "html_content") (fun v =>
      andThen (trim_value (JS.or v (VStr ""))) (fun html =>
      Ret (to, subject, html)))))))
    with
    | Throw msg => (Throw msg, [])
    | Ret (to, subject, html) =>
      if negb (non_empty to && non_empty subject && non_empty html)
      then (Ret (failure_json 400 "Missing required fields."), [])
      else if negb (isValidEmail (VStr to))
      then (Ret (failure_json 400 "Invalid recipient email."), [])
      else
        match
          andThen (field_of fields "from_email") (fun v =>
          andThen (trim_value
                     (JS.or (JS.or v (DEFAULT_SENDER_EMAIL (env (host pf)))) (VStr "")))
                  (fun fromEmail =>
          andThen (field_of fields "from_name") (fun v =>
          andThen (trim_value
                     (JS.or (JS.or v (DEFAULT_SENDER_NAME (env (host pf)))) (VStr "")))
                  (fun fromName =>
          Ret (fromEmail, fromName)))))
        with
        | Throw msg => (Throw msg, [])
        | Ret (fromEmail, fromName) =>
          if negb (isValidEmail (VStr fromEmail))
          then (Ret (failure_json 400 "Invalid From email."), [])
          else
            match
              read_attachments pf
                (map snd (List.filter (fun f => String.eqb (fst f) "attachments") files))
                0 []
            with
            | Throw msg => (Throw msg, [])
            | Ret (inr response) => (Ret response, [])
            | Ret (inl attachments) =>
              let senderValue :=
                if non_empty fromName then fromName ++ " <" ++ fromEmail ++ ">"
                else fromEmail in
              let payload := mkPayload [VStr to] (VStr senderValue) subject html in
              match fetchSMTP2GO_single pf payload attachments with
              | Ret resp =>
                  (Ret (Json 200 (WObj [("success", WBool true);
                                        ("message", WStr "Email sent");
                                        ("response", WText resp)])),
                   [(payload, attachments)])
              | Throw msg => (Ret (failure_json 502 msg), [(payload, attachments)])
              end
            end
        end
    end
  end.

Definition singleSend (pf : Platform) (request : Request) (ns : gmap string Storage)
  : WOutcome :=
  mkWOutcome (fst (singleSend_run pf request)) ns (snd (singleSend_run pf request)).

(** ** Bulk create and bulk status *)

(** The digits at the head of [s], read in base ten; [acc] is the number
    read so far, [None] before the first digit. *)
Fixpoint parse_digits (acc : option Z) (s : string) : option Z :=
  match s with
  | String c s' =>
      if is_digit c
      then parse_digits
             (Some (10 * (match acc with Some n => n | None => 0 end)
                    + (Z.of_N (code c) - 48))) s'
      else acc
  | EmptyString => acc
  end.

(** [parseInt(s, 10)] as an exact integer, [None] for NaN.  The number the
    engine returns is the nearest double; under the clamp below the two
    cannot be told apart. *)
Definition parseInt10 (s : string) : option Z :=
  match trim_start s with
  | String c s' =>
      if Ascii.eqb c "-" then option_map Z.opp (parse_digits None s')
      else if Ascii.eqb c "+" then parse_digits None s'
      else parse_digits None (String c s')
  | EmptyString => None
  end.

(** [Math.min(Math.max(parseInt(v || '4', 10), 1), 20)], [None] for NaN *)
Definition clamp_interval (v : value) : option Z :=
  option_map (fun n => Z.min (Z.max n 1) 20)
             (parseInt10 (ToString (JS.or v (VStr "4")))).

(** A value after [JSON.stringify] and [JSON.parse]: a function is left
    out, which reads as [undefined]. *)
Definition through_json (v : value) : value :=
  match v with
  | VNative _ => VUndef
  | _ => v
  end.

(** An object after the same passage: properties holding [undefined] or a
    function are left out. *)
Definition object_through_json (o : JS.object) : JS.object :=
  List.filter (fun kv => match snd kv with VUndef | VNative _ => false | _ => true end) o.

(** [res.ok] *)
Definition response_ok (r : DoResponse) : bool :=
  let code := match r with DoJson r => status_code r | DoText code _ => code end in
  (200 <=? code) && (code <=? 299).

(** The body of the init request, after [JSON.stringify] and
    [request.json()].  [interval] is [None] for NaN, which the source
    serialises as [null] and the object stores as [null]; the job record
    here has a number in that place and holds 0, the value [null] takes in
    the one sum the object makes with it ([Date.now() + interval * 1000]).
    What is proved of a stored interval is proved for a readable one. *)
Definition init_body (id : string) (recipients : list JS.object)
           (subject html : value) (interval : option Z)
           (fromEmail fromName : value) : InitBody :=
  mkInitBody id (map object_through_json recipients)
             (through_json (JS.or subject (VStr "")))
             (through_json (JS.or html (VStr "")))
             (match interval with Some n => n | None => 0 end)
             (through_json (JS.or fromEmail (VStr "")))
             (through_json (JS.or fromName (VStr ""))).

Definition bulkCreate (pf : Platform) (request : Request) (ns : gmap string Storage)
  : WOutcome :=
  match parseFormData request with
  | Throw msg => mkWOutcome (Throw msg) ns []
  | Ret (fields, _) =>
    match field_of fields "recipients" with
    | Throw msg => mkWOutcome (Throw msg) ns []
    | Ret text =>
      if negb (truthy text)
      then mkWOutcome (Ret (failure_json 400 "Missing recipients JSON.")) ns []
      else
        match JSON_parse pf (ToString text) with
        | ParseError =>
            mkWOutcome (Ret (failure_json 400 "Invalid recipients JSON.")) ns []
        | ParsedOther | ParsedArray [] =>
            mkWOutcome (Ret (failure_json 400 "Recipients must be a non-empty array.")) ns []
        | ParsedArray recipients =>
          if (1000 <? Z.of_nat (List.length recipients))
          then mkWOutcome (Ret (failure_json 400 "Max 1000 recipients.")) ns []
          else
            match
              andThen (field_of fields "subject") (fun subject =>
              andThen (field_of fields "html_content") (fun html =>
              andThen (field_of fields "interval") (fun interval =>
              andThen (field_of fields "from_email_template") (fun fromEmail =>
              andThen (field_of fields "from_name_template") (fun fromName =>
              Ret (init_body (randomUUID pf) recipients subject html
                             (clamp_interval interval) fromEmail fromName,
                   clamp_interval interval))))))
            with
            | Throw msg => mkWOutcome (Throw msg) ns []
            | Ret (body, interval) =>
              let id := randomUUID pf in
              match run (JobStore_fetch (host pf) (mkDoRequest "/job/init" "POST" (Some body)))
                        (storage_of ns id) with
              | (Throw msg, (st, _)) => mkWOutcome (Throw msg) (<[id := st]> ns) []
              | (Ret init, (st, _)) =>
                  if negb (response_ok init)
                  then mkWOutcome (Ret (failure_json 500 "Failed to initialize job."))
                                  (<[id := st]> ns) []
                  else
                    mkWOutcome
                      (Ret (Json 200
                              (WObj [("success", WBool true);
                                     ("job_id", WStr id);
                                     ("details",
                                      WObj [("total_emails",
                                             WNum (Z.of_nat (List.length recipients)));
                                            ("interval",
                                             match interval with
                                             | Some n => WNum n
                                             | None => WNull
                                             end)])])))
                      (<[id := st]> ns) []
              end
            end
        end
    end
  end.

Definition bulkStatus (pf : Platform) (jobId : string) (ns : gmap string Storage)
  : WOutcome :=
  match run (JobStore_fetch (host pf) (mkDoRequest "/job/status" "GET" None))
            (storage_of ns jobId) with
  | (Throw msg, (st, _)) => mkWOutcome (Throw msg) (<[jobId := st]> ns) []
  | (Ret res, (st, _)) =>
      let ns' := <[jobId := st]> ns in
      match res with
      | DoJson r =>
          if status_code r =? 404
          then mkWOutcome (Ret (failure_json 404 "Job not found")) ns' []
          else mkWOutcome
                 (Ret (Json 200 (WObj [("success", WBool true); ("status", WView (body r))])))
                 ns' []
      | DoText code text =>
          if code =? 404
          then mkWOutcome (Ret (failure_json 404 "Job not found")) ns' []
          else mkWOutcome (Throw "Unexpected token in JSON") ns' []
      end
  end.

(** ** Router *)

(** [pathname.split('/').pop()]: what follows the last slash; [acc] is the
    piece read since the last one. *)
Fixpoint last_piece (acc : string) (s : string) : string :=
  match s with
  | String c s' =>
      if Ascii.eqb c "/" then last_piece EmptyString s'
      else last_piece (acc ++ String c EmptyString) s'
  | EmptyString => acc
  end.

(** The router.  A handler is returned, not awaited, inside the [try], so
    an error it ends in passes the [catch] by and is the outcome of the
    request; nothing in the [try] itself throws. *)
Definition handle (pf : Platform) (request : Request) (ns : gmap string Storage)
  : WOutcome :=
  if String.eqb (method request) "GET" && String.eqb (pathname request) "/"
  then mkWOutcome
         (Ret (PlainText 200 "Worker API: /api/send-email, /api/send-bulk, /api/bulk-status/:id"))
         ns []
  else if String.eqb (pathname request) "/api/send-email"
          && String.eqb (method request) "POST"
  then singleSend pf request ns
  else if String.eqb (pathname request) "/api/send-bulk"
          && String.eqb (method request) "POST"
  then bulkCreate pf request ns
  else if String.prefix "/api/bulk-status/" (pathname request)
          && String.eqb (method request) "GET"
  then bulkStatus pf (last_piece EmptyString (pathname request)) ns
  else mkWOutcome (Ret (failure_json 404 "Not found")) ns [].

(** ** The endpoint of SMTP2GO *)

(** [s.replace(/\/$/, '')] *)
Fixpoint drop_final_slash (s : string) : string :=
  match s with
  | String c EmptyString => if Ascii.eqb c "/" then EmptyString else s
  | String c s' => String c (drop_final_slash s')
  | EmptyString => EmptyString
  end.

(** [(env.SMTP2GO_API_URL || '').replace(/\/$/, '') + '/email/send'] for a
    binding that is a string or missing *)
Definition apiUrl (e : Env) : string :=
  drop_final_slash (ToString (JS.or (SMTP2GO_API_URL e) (VStr ""))) ++ "/email/send".

(** ** Vocabulary of the worker's properties *)

(** The files a single send attaches. *)
Definition attached (files : list (string * File)) : list File :=
  map snd (List.filter (fun f => String.eqb (fst f) "attachments") files).

Definition total_size (files : list File) : Z :=
  fold_right (fun f n => file_size f + n) 0 files.

(** ** Sample requests *)

Definition host_no_key : Host :=
  mkHost (mkEnv (VStr "https://api.smtp2go.com/v3") VUndef
                (VStr "noreply@x.com") (VStr "Sender"))
         3000 (fun _ => None) true.

Definition job_B1 : Job :=
  mkJob "job-1" 1000 1 [[("Email", VStr "not-an-email")]] 1 0 1
        [mkFailure 0 (VStr "not-an-email") "Invalid email"] 1
        (VStr "Hi") (VStr "Hello {{Email}}") (VStr "") (VStr "")
        true (VStr "not-an-email") 0.

Definition sample_platform : Platform :=
  mkPlatform host_ok "0f8fad5b-d9cb-469f-a165-70867728950e"
             (fun _ => ParsedArray [[("Email", VStr "a@x.com")]; [("Email", VStr "b@x.com")]])
             (fun f => Ret (file_bytes f))
             (fun _ _ => Ret "{}").

Definition bulk_request : Request :=
  mkRequest "POST" "/api/send-bulk" (Some "application/json")
            (JsonObject {[ "recipients" := VStr "[{},{}]";
                           "subject" := VStr "Hi";
                           "html_content" := VStr "Hello {{Email}}";
                           "interval" := VStr "2" ]})
            [] [].

Definition status_request (id : string) : Request :=
  mkRequest "GET" ("/api/bulk-status/" ++ id) None JsonNull [] [].

Definition text_request : Request :=
  mkRequest "POST" "/api/send-email" (Some "text/plain")
            (JsonObject {[ "to_email" := VStr "a@x.com" ]}) [] [].

(** * Properties *)

(** ** Checks on concrete inputs *)

Example normalize_spaces : normalizeColumnName " First Name " = "First_Name".
Proof. reflexivity. Qed.

Example normalize_leading_digit : normalizeColumnName "1st" = "1st".
Proof. reflexivity. Qed.

Example normalize_only_underscores : normalizeColumnName "__" = "col".
Proof. reflexivity. Qed.

Example valid_address : isValidEmail (VStr "a@x.com") = true.
Proof. reflexivity. Qed.

Example invalid_address : isValidEmail (VStr "not-an-email") = false.
Proof. reflexivity. Qed.

Example missing_address : isValidEmail VUndef = false.
Proof. reflexivity. Qed.

Example placeholder_with_blanks :
  match_placeholder "{{  First Name }} tail" = Some ("First Name", " tail").
Proof. reflexivity. Qed.

Example placeholder_of_blanks : match_placeholder "{{  }}" = Some (" ", "").
Proof. reflexivity. Qed.

Example placeholder_unclosed : match_placeholder "{{Email}" = None.
Proof. reflexivity. Qed.

Example render_known_key :
  processTemplate (VStr "Hello {{ Email }}!") {[ "Email" := VStr "a@x.com" ]}
  = "Hello a@x.com!".
Proof. vm_compute. reflexivity. Qed.

Example render_null_value :
  processTemplate (VStr "Hello {{Name}}") {[ "Name" := VNull ]} = "Hello {{Name}}".
Proof. vm_compute. reflexivity. Qed.

Example render_not_a_string : processTemplate VUndef ∅ = "".
Proof. reflexivity. Qed.

(** ** Character classes *)

Ltac by_cases_on_char c :=
  destruct c as [[|] [|] [|] [|] [|] [|] [|] [|]]; vm_compute; try reflexivity; try discriminate; auto.

Lemma word_not_space c : is_word c = true -> is_space c = false.
Proof. by_cases_on_char c. Qed.

Lemma digit_is_word c : is_digit c = true -> is_word c = true.
Proof. by_cases_on_char c. Qed.

Lemma digit_not_underscore c : is_digit c = true -> Ascii.eqb c "_" = false.
Proof. by_cases_on_char c. Qed.

Lemma underscore_is_word c : Ascii.eqb c "_" = true -> is_word c = true.
Proof. by_cases_on_char c. Qed.

(** ** Key normalisation *)

Lemma replace_nonword_all_word b s : all_word (replace_nonword b s) = true.
Proof.
  revert b; induction s as [|c s IH]; intros b; simpl; [reflexivity|].
  destruct (is_word c) eqn:Hw; simpl.
  - destruct (b && is_digit c); simpl; rewrite ?Hw, IH; reflexivity.
  - rewrite IH; reflexivity.
Qed.

Lemma replace_nonword_fixes_words s :
  all_word s = true -> replace_nonword false s = s.
Proof.
  induction s as [|c s IH]; simpl; [reflexivity|].
  intros [Hc Hs]%andb_prop. rewrite Hc; simpl. now rewrite IH.
Qed.

Lemma strip_leading_all_word s :
  all_word s = true -> all_word (strip_leading s) = true.
Proof.
  induction s as [|c s IH]; simpl; [reflexivity|].
  intros H. destruct (Ascii.eqb c "_").
  - apply IH. now apply andb_prop in H.
  - exact H.
Qed.

Lemma strip_trailing_all_word s :
  all_word s = true -> all_word (strip_trailing s) = true.
Proof.
  induction s as [|c s IH]; simpl; [reflexivity|].
  intros [Hc Hs]%andb_prop.
  destruct (Ascii.eqb c "_" && all_underscore s); simpl; [reflexivity|].
  now rewrite Hc, IH.
Qed.

Lemma strip_leading_idem s : strip_leading (strip_leading s) = strip_leading s.
Proof.
  induction s as [|c s IH]; simpl; [reflexivity|].
  destruct (Ascii.eqb c "_") eqn:E; [exact IH|].
  simpl. now rewrite E.
Qed.

Lemma all_underscore_strip_trailing s :
  all_underscore s = true -> strip_trailing s = EmptyString.
Proof.
  destruct s as [|c s]; simpl; [reflexivity|].
  intros H. now rewrite H.
Qed.

Lemma strip_trailing_idem s : strip_trailing (strip_trailing s) = strip_trailing s.
Proof.
  induction s as [|c s IH]; simpl; [reflexivity|].
  destruct (Ascii.eqb c "_" && all_underscore s) eqn:E; [reflexivity|].
  simpl. rewrite IH.
  destruct (Ascii.eqb c "_") eqn:Ec; simpl in *; [|reflexivity].
  destruct (all_underscore (strip_trailing s)) eqn:Ea; [|reflexivity].
  exfalso. clear IH Ec.
  induction s as [|d s IHs]; simpl in *; [discriminate|].
  destruct (Ascii.eqb d "_") eqn:Ed; simpl in *.
  - rewrite E in Ea. simpl in Ea. rewrite Ed in Ea. simpl in Ea. now apply IHs.
  - rewrite Ed in Ea. discriminate.
Qed.

Lemma strip_trailing_keeps_head s :
  strip_leading s = s -> strip_leading (strip_trailing s) = strip_trailing s.
Proof.
  destruct s as [|c s]; simpl; [reflexivity|].
  destruct (Ascii.eqb c "_") eqn:E; simpl.
  - intros H. exfalso.
    assert (Hlen : forall t, (String.length (strip_leading t) <= String.length t)%nat).
    { induction t as [|d t IHt]; simpl; [lia|].
      destruct (Ascii.eqb d "_"); simpl; lia. }
    specialize (Hlen s). rewrite H in Hlen. simpl in Hlen. lia.
  - intros _. now rewrite E.
Qed.

Lemma trim_start_word s :
  all_word s = true -> trim_start s = s.
Proof.
  destruct s as [|c s]; simpl; [reflexivity|].
  intros [Hc _]%andb_prop. now rewrite (word_not_space c Hc).
Qed.

Lemma trim_end_word s :
  all_word s = true -> trim_end s = s.
Proof.
  induction s as [|c s IH]; simpl; [reflexivity|].
  intros [Hc Hs]%andb_prop. rewrite (IH Hs).
  destruct s; [now rewrite (word_not_space c Hc)|reflexivity].
Qed.

Lemma strip_leading_replace_nonword s :
  all_word s = true ->
  strip_leading (replace_nonword true s) = strip_leading s.
Proof.
  destruct s as [|c s]; simpl; [reflexivity|].
  intros [Hc Hs]%andb_prop. rewrite Hc; simpl.
  rewrite (replace_nonword_fixes_words s Hs).
  destruct (is_digit c) eqn:Hd; simpl; reflexivity.
Qed.

(** What the two replacements leave is made of word characters and has no
    underscore at either end, so a second pass finds nothing to change. *)
Lemma normalize_fixes_stripped x :
  all_word x = true ->
  strip_underscores (replace_nonword true (trim (strip_underscores x)))
  = strip_underscores x.
Proof.
  intros Hx. unfold strip_underscores, trim.
  set (r := strip_trailing (strip_leading x)).
  assert (Hr : all_word r = true)
    by now apply strip_trailing_all_word, strip_leading_all_word.
  rewrite (trim_start_word r Hr), (trim_end_word r Hr).
  rewrite (strip_leading_replace_nonword r Hr).
  unfold r. rewrite strip_trailing_keeps_head by apply strip_leading_idem.
  apply strip_trailing_idem.
Qed.

(** C9: normalising a key twice gives what normalising it once gives. *)
Theorem normalizeColumnName_idempotent (k : string) :
  normalizeColumnName (normalizeColumnName k) = normalizeColumnName k.
Proof.
  unfold normalizeColumnName at 2 3.
  set (x := replace_nonword true (trim k)).
  destruct (String.eqb (strip_underscores x) "") eqn:E.
  - reflexivity.
  - unfold normalizeColumnName.
    rewrite (normalize_fixes_stripped x (replace_nonword_all_word true (trim k))).
    now rewrite E.
Qed.

(** ** Template renderer *)

Lemma lit_consumes a n k : consumes n k -> consumes (S n) (lit a k).
Proof.
  intros Hk [|c s] p rest; simpl; [discriminate|].
  destruct (Ascii.eqb c a); [|discriminate].
  intros H. destruct (Hk _ _ _ H) as (m & -> & Hm).
  exists (String c m). split; [reflexivity|simpl; lia].
Qed.

Lemma greedy_star_consumes cls n k :
  consumes n k -> consumes n (greedy_star cls k).
Proof.
  intros Hk s. induction s as [|c s IH]; intros p rest; simpl.
  - apply Hk.
  - destruct (cls c); [|apply Hk].
    destruct (greedy_star cls k s) as [[p' rest']|] eqn:E.
    + intros [= -> ->]. destruct (IH _ _ eq_refl) as (m & -> & Hm).
      exists (String c m). split; [reflexivity|simpl; lia].
    + apply Hk.
Qed.

Lemma lazy_plus_consumes cls n k :
  (forall acc, consumes n (k acc)) ->
  forall acc, consumes (S n) (lazy_plus cls acc k).
Proof.
  intros Hk acc s. revert acc.
  induction s as [|c s IH]; intros acc p rest; simpl; [discriminate|].
  destruct (cls c); [|discriminate].
  destruct (k (acc ++ String c "") s) as [[p' rest']|] eqn:E.
  - intros [= -> ->]. destruct (Hk _ _ _ _ E) as (m & -> & Hm).
    exists (String c m). split; [reflexivity|simpl; lia].
  - intros H. destruct (IH _ _ _ H) as (m & -> & Hm).
    exists (String c m). split; [reflexivity|simpl; lia].
Qed.

Lemma match_placeholder_consumes : consumes 5 match_placeholder.
Proof.
  unfold match_placeholder.
  do 2 apply lit_consumes. apply greedy_star_consumes.
  apply lazy_plus_consumes. intros acc.
  apply greedy_star_consumes. do 2 apply lit_consumes.
  intros s p rest [= <- <-]. exists EmptyString. split; [reflexivity|simpl; lia].
Qed.

Lemma str_length_app (a b : string) :
  String.length (a ++ b) = (String.length a + String.length b)%nat.
Proof. induction a as [|c a IH]; simpl; [reflexivity|now rewrite IH]. Qed.

Lemma str_take_app (a b : string) : str_take (String.length a) (a ++ b) = a.
Proof. induction a as [|c a IH]; simpl; [now destruct b|now rewrite IH]. Qed.

Lemma str_drop_app (a b : string) : str_drop (String.length a) (a ++ b) = b.
Proof. induction a as [|c a IH]; simpl; [now destruct b|exact IH]. Qed.

Lemma replace_placeholders_skip cb n s :
  replace_placeholders cb n s = replace_placeholders cb 0 (str_drop n s).
Proof.
  revert n; induction s as [|c s IH]; intros [|n]; try reflexivity.
  simpl str_drop. rewrite <- IH. reflexivity.
Qed.

(** The scan at a placeholder: the callback's text, then the rest. *)
Lemma replace_placeholders_match cb s p1 rest :
  match_placeholder s = Some (p1, rest) ->
  exists m, s = m ++ rest /\
            replace_placeholders cb 0 s = cb m p1 ++ replace_placeholders cb 0 rest.
Proof.
  intros H. destruct (match_placeholder_consumes _ _ _ H) as (m & -> & Hm).
  exists m. split; [reflexivity|].
  destruct m as [|c m]; [simpl in Hm; lia|].
  change (String c m ++ rest) with (String c (m ++ rest)) in *.
  cbn [replace_placeholders]. rewrite H.
  replace (String.length (String c (m ++ rest)) - String.length rest)%nat
    with (String.length (String c m))
    by (simpl; rewrite str_length_app; lia).
  change (String c (m ++ rest)) with (String c m ++ rest) at 1.
  rewrite str_take_app.
  replace (String.length (String c m) - 1)%nat with (String.length m)
    by (simpl; lia).
  rewrite replace_placeholders_skip, str_drop_app. reflexivity.
Qed.

(** The scan elsewhere: the character is copied. *)
Lemma replace_placeholders_copy cb c s :
  match_placeholder (String c s) = None ->
  replace_placeholders cb 0 (String c s) = String c (replace_placeholders cb 0 s).
Proof. intros H. cbn [replace_placeholders]. now rewrite H. Qed.

Lemma replace_placeholders_verbatim cb s :
  each_placeholder (fun m p1 => cb m p1 = m) s ->
  replace_placeholders cb 0 s = s.
Proof.
  induction 1 as [|c s Hn _ IH|m p1 rest Hm Hcb _ IH].
  - reflexivity.
  - rewrite replace_placeholders_copy by assumption. now rewrite IH.
  - destruct (replace_placeholders_match cb _ _ _ Hm) as (m' & Hs & ->).
    assert (m' = m) as ->.
    { apply (f_equal String.length) in Hs as Hl. rewrite !str_length_app in Hl.
      assert (Hlen : String.length m = String.length m') by lia.
      clear -Hs Hlen. revert m' Hs Hlen.
      induction m as [|c m IHm]; intros [|d m'] Hs Hlen; simpl in *;
        try discriminate; [reflexivity|].
      injection Hs as -> Hs. f_equal. apply IHm; [assumption|lia]. }
    now rewrite Hcb, IH.
Qed.

Lemma no_placeholder_each P s :
  has_placeholder s = false -> each_placeholder P s.
Proof.
  induction s as [|c s IH]; [constructor|].
  cbn [has_placeholder].
  destruct (match_placeholder (String c s)) eqn:E; [discriminate|].
  intros H. apply each_copy; auto.
Qed.

(** A template without placeholder is rendered as itself. *)
Lemma processTemplate_no_placeholder T ctx :
  has_placeholder T = false -> processTemplate (VStr T) ctx = T.
Proof.
  intros H. unfold processTemplate.
  apply replace_placeholders_verbatim, no_placeholder_each, H.
Qed.

(** Placeholders whose key reads as [undefined] or [null] through the
    context object stay as they are. *)
Lemma processTemplate_nullish_verbatim T ctx :
  each_placeholder
    (fun _ p1 => non_nullish (JS.get ctx (normalizeColumnName (trim p1))) = false) T ->
  processTemplate (VStr T) ctx = T.
Proof.
  intros H. unfold processTemplate.
  apply replace_placeholders_verbatim.
  induction H; econstructor; eauto.
  cbv beta zeta. now rewrite H0.
Qed.

Lemma get_absent ctx k : JS.has ctx k = false -> JS.get ctx k = VUndef.
Proof.
  unfold JS.has, JS.get. destruct (ctx !! k); [discriminate|].
  now destruct (Object_prototype k).
Qed.

(** Placeholders whose key the context object neither owns nor inherits
    stay as they are. *)
Lemma processTemplate_absent_verbatim T ctx :
  each_placeholder
    (fun _ p1 => JS.has ctx (normalizeColumnName (trim p1)) = false) T ->
  processTemplate (VStr T) ctx = T.
Proof.
  intros H. apply processTemplate_nullish_verbatim.
  induction H; econstructor; eauto.
  cbv beta. now rewrite get_absent.
Qed.

Lemma processTemplate_missing :
  processTemplate (VStr "{{missing}}") ∅ = "{{missing}}".
Proof. vm_compute. reflexivity. Qed.

(** ** One tick *)

Lemma process_recipient_invalid h job idx r e s :
  isValidEmail e = false ->
  process_recipient h job idx r e s
  = (Ret (push_failure
            (mkFailure idx (JS.or e (VStr "(missing)")) "Invalid email") job), s).
Proof. intros H. unfold process_recipient. now rewrite H. Qed.

(** The tick on a missing or finished job does nothing. *)
Lemma alarm_idle h st :
  match stored_job st with
  | None => True
  | Some j => in_progress j = false
  end ->
  run (alarm h) st = (Ret tt, (st, [EvGet])).
Proof.
  unfold run, alarm, bind, storage_get.
  destruct (stored_job st) as [j|]; [|reflexivity].
  intros ->. reflexivity.
Qed.

(** The tick on a job whose cursor has reached the end closes it. *)
Lemma alarm_closing h st j :
  stored_job st = Some j -> in_progress j = true -> total j <= processed j ->
  run (alarm h) st =
    if put_ok h
    then (Ret tt, (mkStorage (Some (set_in_progress false j)) (armed st),
                   [EvGet; EvPut (set_in_progress false j)]))
    else (Throw "storage put failed", (st, [EvGet])).
Proof.
  intros Hj Hp Hle. unfold run, alarm, bind, storage_get. rewrite Hj, Hp.
  cbn [negb]. apply Z.leb_le in Hle. rewrite Hle.
  unfold storage_put. destruct (put_ok h); reflexivity.
Qed.

(** ** The outcome of a tick in closed form *)

Lemma process_recipient_handled h j st tr :
  process_recipient h j (processed j) (recipient_at (recipients j) (processed j))
                    (resolved_email j) (st, tr)
  = (Ret (fst (handled h j)), (st, (tr ++ snd (handled h j))%list)).
Proof.
  unfold process_recipient, handled, dispatch_error.
  destruct (isValidEmail (resolved_email j)); cbn [negb].
  - destruct (recipient_at (recipients j) (processed j)) as [o|];
      unfold try_catch, bind, fetchSMTP2GO, emit, ret, throw.
    + destruct (truthy (SMTP2GO_API_KEY (env h))); cbn [negb].
      * destruct (smtp2go h _); reflexivity.
      * reflexivity.
    + cbn [fst snd]. now rewrite app_nil_r.
  - cbn [fst snd]. now rewrite app_nil_r.
Qed.

(** The tick on a job with recipients left handles the one at the cursor,
    advances, writes the job, and then arms the alarm if any remain. *)
Lemma alarm_running_eq h st j :
  stored_job st = Some j -> in_progress j = true -> processed j < total j ->
  run (alarm h) st =
    let j2 := ticked h j in
    let tr1 := snd (handled h j) in
    if put_ok h then
      if processed j2 <? total j2
      then (Ret tt, (mkStorage (Some j2) (Some (now h + interval j2 * 1000)),
                     ([EvGet] ++ tr1 ++ [EvPut j2; EvSetAlarm (now h + interval j2 * 1000)])%list))
      else (Ret tt, (mkStorage (Some j2) (armed st),
                     ([EvGet] ++ tr1 ++ [EvPut j2])%list))
    else (Throw "storage put failed", (st, ([EvGet] ++ tr1)%list)).
Proof.
  intros Hj Hp Hlt.
  cbv zeta. unfold run, alarm, bind at 1, storage_get. rewrite Hj, Hp.
  cbn [negb]. apply Z.leb_gt in Hlt. rewrite Hlt.
  fold (resolved_email j). unfold bind at 1.
  rewrite app_nil_l, process_recipient_handled. fold (ticked h j).
  unfold bind, storage_put, storage_setAlarm, ret.
  destruct (put_ok h); [|reflexivity].
  destruct (processed _ <? total _); cbn [stored_job armed];
    rewrite <- ?app_assoc; reflexivity.
Qed.

Lemma handled_trace h j :
  snd (handled h j) = [] \/ exists p, snd (handled h j) = [EvDispatch p].
Proof.
  unfold handled. destruct (negb _); [now left|].
  destruct (recipient_at _ _); [right; eauto|now left].
Qed.

Lemma ticked_processed h j : processed (ticked h j) = processed j + 1.
Proof.
  unfold ticked, handled. destruct (negb _); [reflexivity|].
  destruct (recipient_at _ _); [|reflexivity].
  cbn [fst]. destruct (dispatch_error _ _); reflexivity.
Qed.

Lemma ticked_total h j : total (ticked h j) = total j.
Proof.
  unfold ticked, handled. destruct (negb _); [reflexivity|].
  destruct (recipient_at _ _); [|reflexivity].
  cbn [fst]. destruct (dispatch_error _ _); reflexivity.
Qed.

Lemma ticked_in_progress h j : in_progress (ticked h j) = in_progress j.
Proof.
  unfold ticked, handled. destruct (negb _); [reflexivity|].
  destruct (recipient_at _ _); [|reflexivity].
  cbn [fst]. destruct (dispatch_error _ _); reflexivity.
Qed.

Lemma ticked_recipients h j : recipients (ticked h j) = recipients j.
Proof.
  unfold ticked, handled. destruct (negb _); [reflexivity|].
  destruct (recipient_at _ _); [|reflexivity].
  cbn [fst]. destruct (dispatch_error _ _); reflexivity.
Qed.

(** Handling a recipient counts one success or one failure. *)
Lemma ticked_counts h j :
  (success (ticked h j) = success j + 1 /\ failed (ticked h j) = failed j) \/
  (success (ticked h j) = success j /\ failed (ticked h j) = failed j + 1).
Proof.
  unfold ticked, handled. destruct (negb _); [now right|].
  destruct (recipient_at _ _); [|now right].
  cbn [fst]. destruct (dispatch_error _ _); [now right|now left].
Qed.

(** What one tick leaves in the storage, by cases on the job it finds. *)
Lemma alarm_persisted h st j :
  stored_job st = Some j ->
  if put_ok h && in_progress j then
    if total j <=? processed j
    then store_after (alarm h) st
         = mkStorage (Some (set_in_progress false j)) (armed st)
    else exists j',
        stored_job (store_after (alarm h) st) = Some j' /\
        processed j' = processed j + 1 /\
        total j' = total j /\
        recipients j' = recipients j /\
        in_progress j' = true /\
        ((success j' = success j + 1 /\ failed j' = failed j) \/
         (success j' = success j /\ failed j' = failed j + 1))
  else store_after (alarm h) st = st.
Proof.
  intros Hj. unfold store_after.
  destruct (in_progress j) eqn:Hp.
  - destruct (total j <=? processed j) eqn:Hc.
    + apply Z.leb_le in Hc. rewrite (alarm_closing h st j Hj Hp Hc).
      destruct (put_ok h); reflexivity.
    + apply Z.leb_gt in Hc. rewrite (alarm_running_eq h st j Hj Hp Hc). cbv zeta.
      destruct (put_ok h); cbn [andb]; [|reflexivity].
      exists (ticked h j).
      split; [destruct (processed _ <? total _); reflexivity|].
      rewrite ticked_processed, ticked_total, ticked_recipients, ticked_in_progress.
      repeat split; try assumption. apply ticked_counts.
  - rewrite andb_false_r. rewrite alarm_idle; [reflexivity|]. now rewrite Hj.
Qed.

Lemma init_store h b st :
  put_ok h = true ->
  store_after (init h b) st
  = mkStorage (Some (fresh_job h b)) (Some (now h + init_interval b * 1000)).
Proof.
  intros H. unfold store_after, run, init, bind, storage_put, storage_setAlarm, ret.
  rewrite H. reflexivity.
Qed.

(** ** Counters *)

(** The tick that handles the last recipient arms no alarm and leaves the
    flag raised. *)
Lemma last_recipient_tick h st j :
  stored_job st = Some j -> in_progress j = true -> processed j + 1 = total j ->
  put_ok h = true ->
  existsb is_set_alarm (trace_of (alarm h) st) = false /\
  store_after (alarm h) st = mkStorage (Some (ticked h j)) (armed st) /\
  in_progress (ticked h j) = true.
Proof.
  intros Hj Hp Hlast Hput. unfold trace_of, store_after.
  rewrite (alarm_running_eq h st j Hj Hp) by lia. cbv zeta. rewrite Hput.
  assert (Hc : (processed (ticked h j) <? total (ticked h j)) = false)
    by (rewrite ticked_processed, ticked_total; apply Z.ltb_ge; lia).
  rewrite Hc, ticked_in_progress. cbn [fst snd].
  destruct (handled_trace h j) as [->|[p ->]]; repeat split; assumption.
Qed.

Lemma reachable_counters st :
  reachable st -> exists j, stored_job st = Some j /\ counters_ok j.
Proof.
  induction 1 as [h b st Hput|h st _ (j & Hj & Heq & Hle)].
  - rewrite init_store by assumption. eexists. split; [reflexivity|].
    split; cbn; lia.
  - pose proof (alarm_persisted h st j Hj) as H.
    destruct (put_ok h && in_progress j).
    + destruct (total j <=? processed j) eqn:Hc.
      * rewrite H. eexists. split; [reflexivity|]. split; cbn; lia.
      * apply Z.leb_gt in Hc.
        destruct H as (j' & Hj' & Hp' & Ht' & _ & _ & Hsf).
        exists j'. split; [exact Hj'|]. split; lia.
    + rewrite H. exists j. split; [exact Hj|]. split; assumption.
Qed.

Lemma alarm_processed_mono h st j j' :
  stored_job st = Some j ->
  stored_job (store_after (alarm h) st) = Some j' ->
  processed j <= processed j'.
Proof.
  intros Hj Hj'. pose proof (alarm_persisted h st j Hj) as H.
  destruct (put_ok h && in_progress j).
  - destruct (total j <=? processed j).
    + rewrite H in Hj'. injection Hj' as <-. cbn. lia.
    + destruct H as (j'' & Hj'' & Hp & _). rewrite Hj' in Hj''.
      injection Hj'' as <-. lia.
  - rewrite H, Hj in Hj'. injection Hj' as <-. lia.
Qed.

(** C2: in every state reached from [init] by ticks the persisted counters
    satisfy processed = success + failed and processed <= total, and a
    further tick never lowers processed. *)
Theorem counters_invariant (st : Storage) (j : Job) :
  reachable st ->
  stored_job st = Some j ->
  processed j = success j + failed j /\
  processed j <= total j /\
  forall h j', stored_job (store_after (alarm h) st) = Some j' ->
               processed j <= processed j'.
Proof.
  intros Hr Hj. destruct (reachable_counters st Hr) as (j0 & Hj0 & Heq & Hle).
  rewrite Hj in Hj0. injection Hj0 as <-.
  repeat split; try assumption.
  intros h j'. now apply alarm_processed_mono.
Qed.

(** ** Completion flag *)

Lemma finished_tick h st :
  option_map in_progress (stored_job st) = Some false ->
  store_after (alarm h) st = st.
Proof.
  intros H. unfold store_after. rewrite alarm_idle; [reflexivity|].
  destruct (stored_job st) as [j|]; [|discriminate]. now injection H.
Qed.

Lemma finished_ticks hs st :
  option_map in_progress (stored_job st) = Some false ->
  ticks hs st = st.
Proof.
  induction hs as [|h hs IH]; intros H; [reflexivity|].
  cbn [ticks fold_left]. rewrite (finished_tick h st H). now apply IH.
Qed.

(** C4: in an execution made of [init] and ticks, once the persisted flag
    is false it is false after any further ticks. *)
Theorem in_progress_never_reverses
        (h0 : Host) (b : InitBody) (st0 : Storage) (hs1 hs2 : list Host) :
  let st1 := ticks hs1 (store_after (init h0 b) st0) in
  option_map in_progress (stored_job st1) = Some false ->
  option_map in_progress (stored_job (ticks hs2 st1)) = Some false.
Proof.
  intros st1 H. now rewrite (finished_ticks hs2 st1 H).
Qed.

(** ** Persist, then re-arm *)

(** C5: a tick that handles a recipient writes the job before it arms the
    alarm; when the write fails it arms nothing and leaves the storage as it
    found it, so the next tick starts from the same cursor. *)
Theorem persist_then_rearm (h : Host) (st : Storage) (j : Job) :
  stored_job st = Some j -> in_progress j = true -> processed j < total j ->
  put_before_alarm false (trace_of (alarm h) st) = true /\
  if put_ok h then
    exists pre j',
      stored_job (store_after (alarm h) st) = Some j' /\
      processed j' = processed j + 1 /\
      existsb is_put pre = false /\ existsb is_set_alarm pre = false /\
      trace_of (alarm h) st
      = (pre ++ EvPut j' ::
             if processed j' <? total j'
             then [EvSetAlarm (now h + interval j' * 1000)] else [])%list
  else
    outcome_of (alarm h) st = Throw "storage put failed" /\
    existsb is_set_alarm (trace_of (alarm h) st) = false /\
    store_after (alarm h) st = st /\
    forall h', run (alarm h') (store_after (alarm h) st) = run (alarm h') st.
Proof.
  intros Hj Hp Hlt. unfold trace_of, store_after, outcome_of.
  rewrite (alarm_running_eq h st j Hj Hp Hlt). cbv zeta.
  pose proof (ticked_processed h j) as Hpr.
  destruct (handled_trace h j) as [Htr|(p & Htr)]; rewrite Htr;
    destruct (put_ok h); cbn [app];
    try (destruct (processed (ticked h j) <? total (ticked h j)) eqn:Hc);
    cbn [fst snd put_before_alarm existsb is_set_alarm is_put andb orb];
    (split; [reflexivity|]).
  all: try (repeat split; reflexivity).
  - exists [EvGet], (ticked h j). rewrite Hc. repeat split. exact Hpr.
  - exists [EvGet], (ticked h j). rewrite Hc. repeat split. exact Hpr.
  - exists [EvGet; EvDispatch p], (ticked h j). rewrite Hc. repeat split. exact Hpr.
  - exists [EvGet; EvDispatch p], (ticked h j). rewrite Hc. repeat split. exact Hpr.
Qed.

(** ** Reaching the end of the list *)

(** With the storage accepting writes, [n] ticks move the cursor [n]
    places forward, up to the end of the list. *)
Lemma ticks_processed hs : forall st j,
  Forall (fun h => put_ok h = true) hs ->
  stored_job st = Some j ->
  processed j <= total j ->
  in_progress j = true \/ processed j = total j ->
  exists j',
    stored_job (ticks hs st) = Some j' /\
    total j' = total j /\
    processed j' = Z.min (processed j + Z.of_nat (List.length hs)) (total j).
Proof.
  induction hs as [|h hs IH]; intros st j Hall Hj Hle Hrun.
  - exists j. cbn. repeat split; [assumption|lia].
  - apply Forall_cons_iff in Hall as [Hh Hall].
    cbn [ticks fold_left]. fold (ticks hs (store_after (alarm h) st)).
    pose proof (alarm_persisted h st j Hj) as H. rewrite Hh in H. cbn [andb] in H.
    destruct (in_progress j) eqn:Hp.
    + destruct (total j <=? processed j) eqn:Hc.
      * apply Z.leb_le in Hc.
        destruct (IH (store_after (alarm h) st) (set_in_progress false j) Hall
                     ltac:(rewrite H; reflexivity) Hle ltac:(right; cbn; lia))
          as (j' & Hj' & Ht & Hpr).
        exists j'. cbn in Ht, Hpr. repeat split; [assumption..|].
        rewrite Hpr, length_cons. lia.
      * apply Z.leb_gt in Hc.
        destruct H as (j1 & Hj1 & Hp1 & Ht1 & _ & Hi1 & _).
        destruct (IH (store_after (alarm h) st) j1 Hall Hj1 ltac:(lia) ltac:(now left))
          as (j' & Hj' & Ht & Hpr).
        exists j'. repeat split; [assumption|lia|].
        rewrite Hpr, Hp1, Ht1, length_cons. lia.
    + destruct Hrun as [Hrun|Hrun]; [discriminate|].
      destruct (IH (store_after (alarm h) st) j Hall ltac:(rewrite H; assumption) Hle ltac:(now right))
        as (j' & Hj' & Ht & Hpr).
      exists j'. repeat split; [assumption..|].
      rewrite Hpr, length_cons. lia.
Qed.

(** ** Invalid addresses *)

Lemma invalid_handled h j :
  isValidEmail (resolved_email j) = false ->
  handled h j
  = (push_failure
       (mkFailure (processed j) (JS.or (resolved_email j) (VStr "(missing)"))
                  "Invalid email") j, []).
Proof. intros H. unfold handled. now rewrite H. Qed.

(** C6: when the recipient at the cursor is {Email: "not-an-email"}, the
    tick calls no transport, counts one more failure, appends the entry
    (cursor, "not-an-email", "Invalid email") to the ledger and advances the
    cursor; the ticks that follow bring processed to total. *)
Theorem invalid_email_is_recorded (h : Host) (hs : list Host) (st : Storage) (j : Job) :
  stored_job st = Some j -> in_progress j = true -> processed j < total j ->
  recipient_at (recipients j) (processed j) = Some [("Email", VStr "not-an-email")] ->
  put_ok h = true ->
  Forall (fun h' => put_ok h' = true) hs ->
  total j - processed j - 1 <= Z.of_nat (List.length hs) ->
  dispatched (trace_of (alarm h) st) = [] /\
  (exists j',
      stored_job (store_after (alarm h) st) = Some j' /\
      failed j' = failed j + 1 /\
      success j' = success j /\
      failures j'
      = (failures j ++ [mkFailure (processed j) (VStr "not-an-email") "Invalid email"])%list /\
      processed j' = processed j + 1) /\
  (exists j'',
      stored_job (ticks (h :: hs) st) = Some j'' /\
      processed j'' = total j'').
Proof.
  intros Hj Hp Hlt Hr Hput Hall Hlen.
  assert (He : resolved_email j = VStr "not-an-email")
    by (unfold resolved_email; rewrite Hr; reflexivity).
  assert (Hh : handled h j
               = (push_failure
                    (mkFailure (processed j) (VStr "not-an-email") "Invalid email") j, [])).
  { rewrite invalid_handled; rewrite He; reflexivity. }
  pose proof (alarm_running_eq h st j Hj Hp Hlt) as Hrun. cbv zeta in Hrun.
  rewrite Hput in Hrun. unfold ticked in Hrun. rewrite Hh, He in Hrun.
  cbn [fst snd app] in Hrun.
  set (j2 := advance _ _) in Hrun.
  assert (Hst : stored_job (store_after (alarm h) st) = Some j2).
  { unfold store_after. rewrite Hrun. destruct (processed j2 <? total j2); reflexivity. }
  split; [|split].
  - unfold trace_of. rewrite Hrun. destruct (processed j2 <? total j2); reflexivity.
  - exists j2. repeat split; assumption || reflexivity.
  - cbn [ticks fold_left]. fold (ticks hs (store_after (alarm h) st)).
    destruct (ticks_processed hs _ j2 Hall Hst) as (j'' & Hj'' & Ht & Hpr).
    + cbn. lia.
    + left. exact Hp.
    + exists j''. split; [assumption|]. rewrite Hpr, Ht. cbn. lia.
Qed.

(** ** Resolving the address *)

Lemma or_truthy a b : truthy a = true -> JS.or a b = a.
Proof. intros H. unfold JS.or. now rewrite H. Qed.

Lemma or_falsy a b : truthy a = false -> JS.or a b = b.
Proof. intros H. unfold JS.or. now rewrite H. Qed.

Lemma valid_is_truthy addr : isValidEmail (VStr addr) = true -> truthy (VStr addr) = true.
Proof. destruct addr; [discriminate|reflexivity]. Qed.

Lemma valid_handled h j o :
  recipient_at (recipients j) (processed j) = Some o ->
  isValidEmail (resolved_email j) = true ->
  handled h j
  = (match dispatch_error h (make_payload h j (resolved_email j) o) with
     | None => count_success j
     | Some msg =>
         push_failure (mkFailure (processed j) (resolved_email j) (str_take 180 msg)) j
     end,
     [EvDispatch (make_payload h j (resolved_email j) o)]).
Proof. intros Hr Hv. unfold handled. now rewrite Hv, Hr. Qed.

(** C3, as the script has it: the address is the property "Email" or, when
    that one is missing or empty, the property "email".  A recipient holding
    a valid address there is dispatched to, and the only failure the tick
    can record for it is the transport's. *)
Theorem email_read_from_Email_then_email
        (h : Host) (st : Storage) (j : Job) (o : JS.object) (addr : string) :
  stored_job st = Some j -> in_progress j = true -> processed j < total j ->
  recipient_at (recipients j) (processed j) = Some o ->
  (JS.prop o "Email" = VStr addr \/
   (truthy (JS.prop o "Email") = false /\ JS.prop o "email" = VStr addr)) ->
  isValidEmail (VStr addr) = true ->
  put_ok h = true ->
  let p := make_payload h j (VStr addr) o in
  to p = [VStr addr] /\
  dispatched (trace_of (alarm h) st) = [p] /\
  exists j',
    stored_job (store_after (alarm h) st) = Some j' /\
    current j' = VStr addr /\
    match dispatch_error h p with
    | None =>
        success j' = success j + 1 /\ failed j' = failed j /\ failures j' = failures j
    | Some msg =>
        success j' = success j /\ failed j' = failed j + 1 /\
        failures j'
        = (failures j ++ [mkFailure (processed j) (VStr addr) (str_take 180 msg)])%list
    end.
Proof.
  intros Hj Hp Hlt Hr Hkey Hv Hput p.
  pose proof (valid_is_truthy addr Hv) as Ht.
  assert (He : resolved_email j = VStr addr).
  { unfold resolved_email. rewrite Hr. cbn [opt_prop].
    destruct Hkey as [->|[Hf ->]].
    - rewrite (or_truthy (VStr addr) _ Ht). now apply or_truthy.
    - rewrite (or_falsy _ _ Hf). now apply or_truthy. }
  pose proof (alarm_running_eq h st j Hj Hp Hlt) as Hrun. cbv zeta in Hrun.
  rewrite Hput in Hrun. unfold ticked in Hrun.
  rewrite (valid_handled h j o Hr) in Hrun by (now rewrite He).
  rewrite He in Hrun. fold p in Hrun. cbn [fst snd app] in Hrun.
  set (j2 := advance _ _) in Hrun.
  split; [reflexivity|]. split.
  - unfold trace_of. rewrite Hrun. destruct (processed j2 <? total j2); reflexivity.
  - exists j2. split.
    + unfold store_after. rewrite Hrun. destruct (processed j2 <? total j2); reflexivity.
    + split.
      * unfold j2. cbn [current advance]. now apply or_truthy.
      * unfold j2. destruct (dispatch_error h p); repeat split.
Qed.

(** ** Scenario A *)

(** C1: scenario A in the code.  After [init] with the one recipient
    {Email: "a@x.com"}, subject "Hi", body "Hello {{Email}}" and interval 1,
    the one tick that [init] schedules, its dispatch succeeding, sends the
    body "Hello a@x.com" and writes the job with processed = 1, success = 1
    and failed = 0, but with the flag in_progress still raised.  The tick
    calls no setAlarm and the route /job/alarm of the object runs no tick, so
    nothing is left that would lower the flag: no job with these counters and
    the flag lowered is stored. *)
Theorem scenario_A_flag_stays_raised :
  let st1 := store_after (init host_ok body_A) empty_storage in
  let st2 := store_after (alarm host_ok) st1 in
  armed st1 = Some (now host_ok + 1 * 1000) /\
  map html_body (dispatched (trace_of (alarm host_ok) st1)) = ["Hello a@x.com"] /\
  (exists j, stored_job st2 = Some j /\ processed j = 1 /\ total j = 1 /\
             success j = 1 /\ failed j = 0 /\ in_progress j = true) /\
  existsb is_set_alarm (trace_of (alarm host_ok) st1) = false /\
  store_after (JobStore_fetch host_ok (mkDoRequest "/job/alarm" "POST" None)) st2 = st2 /\
  ~ (exists j, stored_job st2 = Some j /\ processed j = 1 /\ success j = 1 /\
               failed j = 0 /\ in_progress j = false).
Proof.
  cbv zeta.
  assert (H : stored_job (store_after (alarm host_ok)
                            (store_after (init host_ok body_A) empty_storage))
              = Some job_A1) by (vm_compute; reflexivity).
  split; [vm_compute; reflexivity|]. split; [vm_compute; reflexivity|].
  split; [exists job_A1; split; [exact H|repeat split]|].
  split; [vm_compute; reflexivity|]. split; [vm_compute; reflexivity|].
  intros (j & Hj & _ & _ & _ & Hflag).
  rewrite H in Hj. injection Hj as <-. discriminate Hflag.
Qed.

(** ** Status *)

Lemma obj_get_delete k k' o :
  obj_get k (obj_delete k' o) = if String.eqb k' k then None else obj_get k o.
Proof.
  induction o as [|[k0 v] o IH]; cbn [obj_delete obj_get].
  - now destruct (String.eqb k' k).
  - destruct (String.eqb k0 k') eqn:E0.
    + apply String.eqb_eq in E0 as ->. rewrite IH.
      now destruct (String.eqb k' k).
    + cbn [obj_get]. rewrite IH.
      destruct (String.eqb k' k) eqn:E; [|reflexivity].
      apply String.eqb_eq in E as <-. now rewrite E0.
Qed.

Lemma obj_get_set k k' v o :
  obj_get k (obj_set k' v o) = if String.eqb k' k then Some v else obj_get k o.
Proof.
  induction o as [|[k0 v0] o IH]; cbn [obj_set obj_get].
  - reflexivity.
  - destruct (String.eqb k0 k') eqn:E0; cbn [obj_get].
    + apply String.eqb_eq in E0 as ->. now destruct (String.eqb k' k).
    + rewrite IH. destruct (String.eqb k' k) eqn:E; [|reflexivity].
      apply String.eqb_eq in E as <-. now rewrite E0.
Qed.

(** C10: [status] writes nothing: the storage after it is the storage
    before it, its trace holds neither a put nor a setAlarm, and the view it
    returns for a job has no "recipients" property while every other
    property of the job is passed on. *)
Theorem status_read_only (st : Storage) :
  store_after status st = st /\
  existsb (fun e => is_put e || is_set_alarm e) (trace_of status st) = false /\
  match stored_job st, outcome_of status st with
  | Some j, Ret r =>
      status_code r = 200 /\
      obj_get "recipients" (body r) = None /\
      obj_get "completion_percentage" (body r) = Some (FNum (completion_percentage j)) /\
      (forall k, String.eqb "recipients" k = false ->
                 String.eqb "completion_percentage" k = false ->
                 obj_get k (body r) = obj_get k (object_of_job j)) /\
      obj_get "recipients" (object_of_job j) = Some (FRecipients (recipients j))
  | None, Ret r => status_code r = 404 /\ body r = [("error", FStr "Missing")]
  | _, Throw _ => False
  end.
Proof.
  unfold store_after, trace_of, outcome_of, run, status, bind, storage_get, ret.
  destruct (stored_job st) as [j|]; cbn [fst snd app existsb is_put is_set_alarm orb body status_code].
  - repeat split.
    intros k H1 H2. now rewrite obj_get_set, H2, obj_get_delete, H1.
  - repeat split.
Qed.

Lemma completion_percentage_no_total j :
  total j = 0 -> completion_percentage j = 0.
Proof. intros H. unfold completion_percentage. now rewrite H. Qed.

Lemma completion_percentage_3_of_4 j :
  processed j = 3 -> total j = 4 -> completion_percentage j = 75.
Proof. intros Hp Ht. unfold completion_percentage. rewrite Hp, Ht. reflexivity. Qed.

Lemma cursors_close_sound t n : forall p q,
  cursors_close t p n = true -> p <= q < p + Z.of_nat n -> percent_close q t = true.
Proof.
  induction n as [|n IH]; intros p q H Hq; [lia|].
  cbn [cursors_close] in H. apply andb_prop in H as [Hp Hrest].
  destruct (Z.eq_dec q p) as [->|Hne]; [exact Hp|].
  apply (IH (p + 1)); [exact Hrest|lia].
Qed.

Lemma totals_close_sound n : forall t u q,
  totals_close t n = true -> 0 <= t -> t <= u < t + Z.of_nat n -> 0 <= q <= u ->
  percent_close q u = true.
Proof.
  induction n as [|n IH]; intros t u q H Ht Hu Hq; [lia|].
  cbn [totals_close] in H. apply andb_prop in H as [Hrow Hrest].
  destruct (Z.eq_dec u t) as [->|Hne].
  - apply (cursors_close_sound t _ 0 q Hrow). lia.
  - apply (IH (t + 1)); [exact Hrest|lia..].
Qed.

Lemma totals_close_200 : totals_close 1 200 = true.
Proof. vm_compute. reflexivity. Qed.

(** For jobs of up to 200 recipients, checked one by one, the reported
    percentage is the exact floor or one less. *)
Lemma completion_percentage_close j :
  0 <= processed j <= total j -> 0 < total j <= 200 ->
  completion_percentage j = processed j * 100 / total j \/
  completion_percentage j = processed j * 100 / total j - 1.
Proof.
  intros Hp Ht. unfold completion_percentage.
  destruct (total j =? 0) eqn:E; [apply Z.eqb_eq in E; lia|].
  pose proof (totals_close_sound 200 1 (total j) (processed j)
                totals_close_200 ltac:(lia) ltac:(lia) Hp) as H.
  unfold percent_close in H. apply orb_prop in H as [H|H];
    apply Z.eqb_eq in H; [now left|now right].
Qed.

(** C3, as claimed, fails: the address under the key "EMAIL" is not found;
    the tick calls no transport and records an "Invalid email" failure. *)
Lemma uppercase_EMAIL_is_rejected :
  isValidEmail (VStr "a@x.com") = true /\
  dispatched (trace_of (alarm host_ok) (started body_upper)) = [] /\
  option_map failures (stored_job (ticks [host_ok] (started body_upper)))
  = Some [mkFailure 0 (VStr "(missing)") "Invalid email"].
Proof. vm_compute. repeat split. Qed.

(** C7: with 29 of 100 recipients handled, the status view reports 28,
    where the exact quotient 29 * 100 / 100 is 29. *)
Theorem completion_percentage_29_of_100 :
  let st := ticks (repeat host_ok 29) (started body_100) in
  option_map processed (stored_job st) = Some 29 /\
  option_map total (stored_job st) = Some 100 /\
  option_map (fun r => obj_get "completion_percentage" (body r))
             (match outcome_of status st with Ret r => Some r | Throw _ => None end)
  = Some (Some (FNum 28)) /\
  29 * 100 / 100 = 29.
Proof. vm_compute. repeat split. Qed.

(** C8: a placeholder naming a property that object literals inherit is
    replaced although the context holds no such key. *)
Theorem inherited_key_is_substituted :
  let ctx := build_ctx [("Email", VStr "a@x.com")] in
  ctx !! normalizeColumnName "constructor" = None /\
  processTemplate (VStr "Hi {{constructor}}") ctx
  = "Hi function Object() { [native code] }" /\
  (∅ : gmap string value) !! normalizeColumnName "constructor" = None /\
  processTemplate (VStr "{{constructor}}") ∅ = "function Object() { [native code] }".
Proof. vm_compute. repeat split. Qed.

(** ** The theorems at the sample runs *)

Lemma counters_invariant_witness :
  reachable (store_after (alarm host_ok) (started body_A)) /\
  stored_job (store_after (alarm host_ok) (started body_A)) = Some job_A1 /\
  processed job_A1 = success job_A1 + failed job_A1 /\
  processed job_A1 <= total job_A1 /\
  forall h j',
    stored_job (store_after (alarm h) (store_after (alarm host_ok) (started body_A)))
    = Some j' ->
    processed job_A1 <= processed j'.
Proof.
  assert (Hr : reachable (store_after (alarm host_ok) (started body_A))).
  { apply reach_tick. unfold started. apply reach_init. reflexivity. }
  assert (Hj : stored_job (store_after (alarm host_ok) (started body_A)) = Some job_A1).
  { vm_compute. reflexivity. }
  split; [exact Hr|]. split; [exact Hj|].
  exact (counters_invariant _ job_A1 Hr Hj).
Defined.

Lemma email_read_from_Email_then_email_witness :
  let o := [("Email", VStr "a@x.com")] in
  let p := make_payload host_ok job_A0 (VStr "a@x.com") o in
  JS.prop o "Email" = VStr "a@x.com" /\
  isValidEmail (VStr "a@x.com") = true /\
  to p = [VStr "a@x.com"] /\
  dispatched (trace_of (alarm host_ok) (started body_A)) = [p] /\
  exists j',
    stored_job (store_after (alarm host_ok) (started body_A)) = Some j' /\
    current j' = VStr "a@x.com" /\
    success j' = success job_A0 + 1 /\ failed j' = failed job_A0 /\
    failures j' = failures job_A0.
Proof.
  intros o p.
  assert (Hk : JS.prop o "Email" = VStr "a@x.com") by reflexivity.
  assert (Hv : isValidEmail (VStr "a@x.com") = true) by reflexivity.
  split; [exact Hk|]. split; [exact Hv|].
  assert (Hj : stored_job (started body_A) = Some job_A0) by reflexivity.
  assert (Hp : in_progress job_A0 = true) by reflexivity.
  assert (Hlt : processed job_A0 < total job_A0) by (simpl; lia).
  assert (Hr : recipient_at (recipients job_A0) (processed job_A0) = Some o)
    by reflexivity.
  assert (Hput : put_ok host_ok = true) by reflexivity.
  exact (email_read_from_Email_then_email host_ok (started body_A) job_A0 o "a@x.com"
           Hj Hp Hlt Hr (or_introl Hk) Hv Hput).
Defined.

Lemma in_progress_never_reverses_witness :
  option_map in_progress
             (stored_job (ticks [host_ok; host_ok] (started body_A))) = Some false /\
  option_map in_progress
             (stored_job (ticks [host_ok]
                                (ticks [host_ok; host_ok] (started body_A)))) = Some false.
Proof.
  assert (H : option_map in_progress
                (stored_job (ticks [host_ok; host_ok]
                                   (store_after (init host_ok body_A) empty_storage)))
              = Some false) by (vm_compute; reflexivity).
  split; [exact H|].
  exact (in_progress_never_reverses host_ok body_A empty_storage
           [host_ok; host_ok] [host_ok] H).
Defined.

Lemma persist_then_rearm_witness :
  stored_job (started body_A) = Some job_A0 /\
  in_progress job_A0 = true /\
  processed job_A0 < total job_A0 /\
  put_before_alarm false (trace_of (alarm host_storage_down) (started body_A)) = true /\
  outcome_of (alarm host_storage_down) (started body_A) = Throw "storage put failed" /\
  existsb is_set_alarm (trace_of (alarm host_storage_down) (started body_A)) = false /\
  store_after (alarm host_storage_down) (started body_A) = started body_A /\
  forall h',
    run (alarm h') (store_after (alarm host_storage_down) (started body_A))
    = run (alarm h') (started body_A).
Proof.
  assert (Hj : stored_job (started body_A) = Some job_A0) by reflexivity.
  assert (Hp : in_progress job_A0 = true) by reflexivity.
  assert (Hlt : processed job_A0 < total job_A0) by (simpl; lia).
  split; [exact Hj|]. split; [exact Hp|]. split; [exact Hlt|].
  exact (persist_then_rearm host_storage_down (started body_A) job_A0 Hj Hp Hlt).
Defined.

Lemma invalid_email_is_recorded_witness :
  stored_job (started body_B) = Some job_B0 /\
  recipient_at (recipients job_B0) (processed job_B0)
  = Some [("Email", VStr "not-an-email")] /\
  dispatched (trace_of (alarm host_ok) (started body_B)) = [] /\
  (exists j',
      stored_job (store_after (alarm host_ok) (started body_B)) = Some j' /\
      failed j' = 1 /\
      success j' = 0 /\
      failures j' = [mkFailure 0 (VStr "not-an-email") "Invalid email"] /\
      processed j' = 1) /\
  (exists j'',
      stored_job (ticks [host_ok] (started body_B)) = Some j'' /\
      processed j'' = total j'').
Proof.
  assert (Hj : stored_job (started body_B) = Some job_B0) by reflexivity.
  assert (Hr : recipient_at (recipients job_B0) (processed job_B0)
               = Some [("Email", VStr "not-an-email")]) by reflexivity.
  assert (Hp : in_progress job_B0 = true) by reflexivity.
  assert (Hlt : processed job_B0 < total job_B0) by (simpl; lia).
  assert (Hput : put_ok host_ok = true) by reflexivity.
  assert (Hlen : total job_B0 - processed job_B0 - 1 <= Z.of_nat (List.length (@nil Host)))
    by (simpl; lia).
  split; [exact Hj|]. split; [exact Hr|].
  exact (invalid_email_is_recorded host_ok [] (started body_B) job_B0
           Hj Hp Hlt Hr Hput (List.Forall_nil _) Hlen).
Defined.

(** * Further properties *)

(** ** The address pattern *)

Lemma str_app_assoc (a b c : string) : (a ++ b) ++ c = a ++ (b ++ c).
Proof.
  induction a as [|x a IH]; [reflexivity|].
  change (String x ((a ++ b) ++ c) = String x (a ++ (b ++ c))). now rewrite IH.
Qed.

Lemma str_app_nil_r (a : string) : a ++ "" = a.
Proof.
  induction a as [|x a IH]; [reflexivity|].
  change (String x (a ++ "") = String x a). now rewrite IH.
Qed.

Lemma greedy_star_keeps (cls : ascii -> bool) (k : string -> option unit) s :
  k s = Some tt -> greedy_star cls k s = Some tt.
Proof.
  intros H. destruct s as [|c s]; simpl; [exact H|].
  destruct (cls c); [|exact H].
  destruct (greedy_star cls k s) as [[]|]; [reflexivity|exact H].
Qed.

Lemma greedy_star_language (cls : ascii -> bool) (k : string -> option unit) s :
  greedy_star cls k s = Some tt <->
  exists a b, s = a ++ b /\ all_in cls a = true /\ k b = Some tt.
Proof.
  split.
  - induction s as [|c s IH]; simpl.
    + intros H. exists "", "". auto.
    + destruct (cls c) eqn:Hc.
      * destruct (greedy_star cls k s) as [[]|] eqn:E.
        -- intros _. destruct (IH eq_refl) as (a & b & -> & Ha & Hb).
           exists (String c a), b. simpl. rewrite Hc, Ha. auto.
        -- intros H. exists "", (String c s). auto.
      * intros H. exists "", (String c s). auto.
  - intros (a & b & -> & Ha & Hb). induction a as [|c a IH]; simpl.
    + now apply greedy_star_keeps.
    + simpl in Ha. apply andb_prop in Ha as [Hc Ha]. rewrite Hc.
      now rewrite (IH Ha).
Qed.

Lemma greedy_plus_language (cls : ascii -> bool) (k : string -> option unit) s :
  greedy_plus cls k s = Some tt <->
  exists a b, s = a ++ b /\ a <> "" /\ all_in cls a = true /\ k b = Some tt.
Proof.
  unfold greedy_plus. destruct s as [|c s].
  - split; [discriminate|]. intros (a & b & H & Ha & _).
    destruct a; [congruence|discriminate].
  - destruct (cls c) eqn:Hc.
    + rewrite greedy_star_language. split.
      * intros (a & b & -> & Ha & Hb). exists (String c a), b.
        simpl. rewrite Hc, Ha. repeat split; auto; discriminate.
      * intros (a & b & H & Hne & Ha & Hb). destruct a as [|x a]; [congruence|].
        simpl in H. injection H as <- ->. simpl in Ha.
        apply andb_prop in Ha as [_ Ha]. eauto.
    + split; [discriminate|]. intros (a & b & H & Hne & Ha & _).
      destruct a as [|x a]; [congruence|]. simpl in H. injection H as <- _.
      simpl in Ha. rewrite Hc in Ha. discriminate.
Qed.

Lemma lit_language a (k : string -> option unit) s :
  lit a k s = Some tt <-> exists b, s = String a b /\ k b = Some tt.
Proof.
  unfold lit. destruct s as [|c s].
  - split; [discriminate|]. intros (b & H & _). discriminate.
  - destruct (Ascii.eqb c a) eqn:E.
    + apply Ascii.eqb_eq in E as ->. split; [eauto|].
      intros (b & [= ->] & H). exact H.
    + split; [discriminate|]. intros (b & [= -> ->] & _).
      now rewrite Ascii.eqb_refl in E.
Qed.

Lemma letters_language s :
  one is_alpha (one is_alpha (greedy_star is_alpha at_end)) s = Some tt <->
  (2 <= String.length s)%nat /\ all_in is_alpha s = true.
Proof.
  assert (Hstar : forall t, greedy_star is_alpha at_end t = Some tt <->
                            all_in is_alpha t = true).
  { intros t. rewrite greedy_star_language. split.
    - intros (a & b & -> & Ha & Hb). destruct b; [|discriminate].
      now rewrite str_app_nil_r.
    - intros H. exists t, "". rewrite str_app_nil_r. auto. }
  destruct s as [|c [|d s]]; simpl.
  - split; [discriminate|]. intros [H _]. lia.
  - split; [destruct (is_alpha c); discriminate|]. intros [H _]. lia.
  - destruct (is_alpha c), (is_alpha d); simpl;
      try (split; [discriminate|intros [_ H]; discriminate]).
    rewrite Hstar. split; [intros H; split; [lia|exact H]|now intros [_ H]].
Qed.

(** X1: the address test accepts exactly the strings made of a non-empty
    local part, "@", a non-empty domain, "." and two or more letters. *)
Theorem isValidEmail_language (s : string) :
  isValidEmail (VStr s) = true <-> email_shape s.
Proof.
  unfold isValidEmail.
  replace (ToString (JS.or (VStr s) (VStr ""))) with s
    by (destruct s; reflexivity).
  assert (Hre : email_re s = Some tt <-> email_shape s).
  { unfold email_re, email_shape. rewrite greedy_plus_language. split.
    - intros (l & b & -> & Hl & Hal & Hb).
      apply lit_language in Hb as (b' & -> & Hb).
      apply greedy_plus_language in Hb as (d & b'' & -> & Hd & Had & Hb).
      apply lit_language in Hb as (t & -> & Hb).
      apply letters_language in Hb as [Hlen Ht].
      exists l, d, t. repeat split; auto.
    - intros (l & d & t & -> & Hl & Hal & Hd & Had & Hlen & Ht).
      exists l, ("@" ++ d ++ "." ++ t). repeat split; auto.
      apply lit_language. eexists. split; [reflexivity|].
      apply greedy_plus_language. exists d, ("." ++ t). repeat split; auto.
      apply lit_language. eexists. split; [reflexivity|].
      now apply letters_language. }
  destruct (email_re s) as [[]|].
  - split; [intros _; now apply Hre|reflexivity].
  - split; [discriminate|]. intros H. apply Hre in H. discriminate.
Qed.

(** ** Normalised names *)

Lemma strip_leading_shorter s : (String.length (strip_leading s) <= String.length s)%nat.
Proof.
  induction s as [|c s IH]; simpl; [lia|].
  destruct (Ascii.eqb c "_"); simpl; lia.
Qed.

Lemma strip_leading_fixed_head c s :
  strip_leading (String c s) = String c s -> c <> "_"%char.
Proof.
  simpl. destruct (Ascii.eqb c "_") eqn:E.
  - intros H. pose proof (strip_leading_shorter s) as Hl.
    rewrite H in Hl. simpl in Hl. lia.
  - intros _ ->. now rewrite Ascii.eqb_refl in E.
Qed.

Lemma strip_trailing_shorter s : (String.length (strip_trailing s) <= String.length s)%nat.
Proof.
  induction s as [|c s IH]; simpl; [lia|].
  destruct (Ascii.eqb c "_" && all_underscore s); simpl; lia.
Qed.

Lemma all_underscore_snoc s : all_underscore (s ++ "_") = all_underscore s.
Proof.
  induction s as [|c s IH]; [reflexivity|].
  change (String c s ++ "_") with (String c (s ++ "_")). simpl. now rewrite IH.
Qed.

Lemma strip_trailing_snoc s : strip_trailing (s ++ "_") = strip_trailing s.
Proof.
  induction s as [|c s IH]; [reflexivity|].
  change (String c s ++ "_") with (String c (s ++ "_")). simpl.
  now rewrite all_underscore_snoc, IH.
Qed.

Lemma strip_trailing_fixed_last s c :
  strip_trailing (s ++ String c "") = s ++ String c "" -> c <> "_"%char.
Proof.
  intros H ->. rewrite strip_trailing_snoc in H.
  pose proof (strip_trailing_shorter s) as Hl. rewrite H in Hl.
  rewrite str_length_app in Hl. simpl in Hl. lia.
Qed.

(** X2: a normalised name is never empty, is made of letters, digits and
    underscores only, and neither starts nor ends with an underscore; in
    particular it is never "__proto__". *)
Theorem normalizeColumnName_shape (k : string) :
  let n := normalizeColumnName k in
  n <> "" /\
  all_word n = true /\
  (forall c s, n = String c s -> c <> "_"%char) /\
  (forall s c, n = s ++ String c "" -> c <> "_"%char) /\
  n <> "__proto__".
Proof.
  assert (H : let n := normalizeColumnName k in
              n <> "" /\ all_word n = true /\
              strip_leading n = n /\ strip_trailing n = n).
  { unfold normalizeColumnName.
    set (x := replace_nonword true (trim k)).
    pose proof (replace_nonword_all_word true (trim k)) as Hx. fold x in Hx.
    destruct (String.eqb (strip_underscores x) "") eqn:E.
    - cbv zeta. repeat split; discriminate || reflexivity.
    - cbv zeta. apply String.eqb_neq in E. unfold strip_underscores in *.
      repeat split.
      + exact E.
      + now apply strip_trailing_all_word, strip_leading_all_word.
      + apply strip_trailing_keeps_head, strip_leading_idem.
      + apply strip_trailing_idem. }
  cbv zeta in *. destruct H as (Hne & Hw & Hl & Ht).
  repeat split; try assumption.
  - intros c s E. rewrite E in Hl. now apply strip_leading_fixed_head in Hl.
  - intros s c E. rewrite E in Ht. now apply strip_trailing_fixed_last in Ht.
  - intros E. rewrite E in Hl. discriminate Hl.
Qed.

Lemma trim_end_idem s : trim_end (trim_end s) = trim_end s.
Proof.
  induction s as [|c s IH]; [reflexivity|].
  simpl. destruct (trim_end s) as [|d r] eqn:E.
  - destruct (is_space c) eqn:Hc; [reflexivity|]. simpl. now rewrite Hc.
  - simpl. simpl in IH. now rewrite IH.
Qed.

Lemma trim_end_head c s :
  is_space c = false -> exists r, trim_end (String c s) = String c r.
Proof.
  intros Hc. simpl. destruct (trim_end s); [rewrite Hc|]; eauto.
Qed.

Lemma trim_start_head s :
  trim_start s = "" \/ exists c r, trim_start s = String c r /\ is_space c = false.
Proof.
  induction s as [|c s IH]; [now left|].
  simpl. destruct (is_space c) eqn:Hc; [exact IH|]. right. eauto.
Qed.

Lemma trim_idem s : trim (trim s) = trim s.
Proof.
  unfold trim. destruct (trim_start_head s) as [->|(c & r & -> & Hc)].
  - reflexivity.
  - destruct (trim_end_head c r Hc) as (r' & E). rewrite E.
    simpl trim_start. rewrite Hc, <- E. apply trim_end_idem.
Qed.

(** X3: blanks around a name do not matter to its normalised form, so the
    text between the braces of a placeholder and a column name that differ
    only by surrounding blanks meet under the same key. *)
Theorem normalizeColumnName_trim (k : string) :
  normalizeColumnName (trim k) = normalizeColumnName k.
Proof. unfold normalizeColumnName. now rewrite trim_idem. Qed.

(** ** The render context *)

Lemma build_ctx_from (r : JS.object) : forall (acc : gmap string value) n,
  fold_left (fun ctx kv => <[normalizeColumnName (fst kv) := snd kv]> ctx) r acc !! n
  = match last_column r n with
    | Some v => Some v
    | None => acc !! n
    end.
Proof.
  induction r as [|[k v] r IH]; intros acc n; [reflexivity|].
  cbn [fold_left last_column fst snd]. rewrite IH.
  destruct (last_column r n); [reflexivity|].
  destruct (String.eqb (normalizeColumnName k) n) eqn:E.
  - apply String.eqb_eq in E as <-. apply lookup_insert_eq.
  - apply String.eqb_neq in E. now apply lookup_insert_ne.
Qed.

(** X4: the context built for a recipient holds, under each normalised
    name, the value of the last column that normalises to it, and nothing
    under any other name. *)
Theorem build_ctx_last_column (r : JS.object) (n : string) :
  build_ctx r !! n = last_column r n.
Proof.
  unfold build_ctx. rewrite build_ctx_from.
  destruct (last_column r n); [reflexivity|apply lookup_empty].
Qed.

(** ** Substitution *)

Lemma space_not_brace c : is_space c = true -> Ascii.eqb c "}" = false.
Proof. by_cases_on_char c. Qed.

Lemma key_not_brace c : is_key c = true -> Ascii.eqb c "}" = false.
Proof. by_cases_on_char c. Qed.

Lemma str_app_inv_tail (a b c : string) : a ++ c = b ++ c -> a = b.
Proof.
  revert b. induction a as [|x a IH]; intros [|y b] H.
  - reflexivity.
  - apply (f_equal String.length) in H.
    rewrite !str_length_app in H. simpl in H. lia.
  - apply (f_equal String.length) in H.
    rewrite !str_length_app in H. simpl in H. lia.
  - change (String x (a ++ c) = String y (b ++ c)) in H.
    injection H as -> H. f_equal. now apply IH.
Qed.

Section Blanks.
Context {R : Type}.

(** The greedy run of blanks passes over [ws] when the match succeeds
    behind it. *)
Lemma greedy_star_pass (cls : ascii -> bool) (k : string -> option R) ws u r :
  all_in cls ws = true ->
  greedy_star cls k u = Some r ->
  greedy_star cls k (ws ++ u) = Some r.
Proof.
  intros Hws Hu. induction ws as [|c ws IH]; [exact Hu|].
  change (String c ws ++ u) with (String c (ws ++ u)).
  simpl in Hws. apply andb_prop in Hws as [Hc Hws].
  simpl. now rewrite Hc, (IH Hws).
Qed.

(** Blanks followed by a character that is neither a blank nor a closing
    brace are not followed by the closing braces. *)
Lemma greedy_star_blocked (k : string -> option R) sp c u :
  all_in is_space sp = true ->
  is_space c = false -> Ascii.eqb c "}" = false ->
  greedy_star is_space (lit "}" k) (sp ++ String c u) = None.
Proof.
  intros Hsp Hc Hb. induction sp as [|a sp IH].
  - change ("" ++ String c u) with (String c u). simpl. now rewrite Hc, Hb.
  - change (String a sp ++ String c u) with (String a (sp ++ String c u)).
    simpl in Hsp. apply andb_prop in Hsp as [Ha Hsp].
    simpl. rewrite Ha, (IH Hsp). now rewrite (space_not_brace a Ha).
Qed.

End Blanks.

Lemma first_non_blank k' : forall c,
  is_space (last_char c k') = false ->
  exists sp d u,
    String c k' = sp ++ String d u /\ all_in is_space sp = true /\ is_space d = false.
Proof.
  induction k' as [|c' k' IH]; intros c H.
  - exists "", c, "". auto.
  - destruct (is_space c) eqn:Hc.
    + destruct (IH c' H) as (sp & d & u & E & Hsp & Hd).
      exists (String c sp), d, u. rewrite E. simpl. rewrite Hc, Hsp. auto.
    + exists "", c, (String c' k'). auto.
Qed.

Lemma all_in_app cls a b : all_in cls (a ++ b) = all_in cls a && all_in cls b.
Proof.
  induction a as [|c a IH]; [reflexivity|].
  change (String c a ++ b) with (String c (a ++ b)). simpl.
  now rewrite IH, andb_assoc.
Qed.

Lemma closing_matches p1 ws rest :
  all_in is_space ws = true -> closing p1 (ws ++ "}}" ++ rest) = Some (p1, rest).
Proof. intros H. unfold closing. now apply greedy_star_pass. Qed.

Lemma lazy_plus_step {R} cls acc (k : string -> string -> option R) c s :
  cls c = true ->
  lazy_plus cls acc k (String c s)
  = match k (acc ++ String c "") s with
    | Some r => Some r
    | None => lazy_plus cls (acc ++ String c "") k s
    end.
Proof. intros H. cbn [lazy_plus]. now rewrite H. Qed.

Lemma lazy_plus_captures ws rest k' : forall c acc,
  all_in is_space ws = true ->
  all_in is_key (String c k') = true ->
  is_space (last_char c k') = false ->
  lazy_plus is_key acc closing (String c k' ++ ws ++ "}}" ++ rest)
  = Some (acc ++ String c k', rest).
Proof.
  induction k' as [|c' k' IH]; intros c acc Hws Hk Hl.
  - change (String c "" ++ ws ++ "}}" ++ rest) with (String c (ws ++ "}}" ++ rest)).
    simpl in Hk. rewrite andb_true_r in Hk. rewrite (lazy_plus_step _ _ _ _ _ Hk).
    now rewrite closing_matches.
  - change (String c (String c' k') ++ ws ++ "}}" ++ rest)
      with (String c (String c' k' ++ ws ++ "}}" ++ rest)).
    simpl in Hk. apply andb_prop in Hk as [Hc Hk].
    rewrite (lazy_plus_step _ _ _ _ _ Hc).
    destruct (first_non_blank k' c' Hl) as (sp & d & u & E & Hsp & Hd).
    assert (Hkd : is_key d = true).
    { change (all_in is_key (String c' k') = true) in Hk. rewrite E in Hk.
      rewrite all_in_app in Hk. apply andb_prop in Hk as [_ Hk].
      simpl in Hk. now apply andb_prop in Hk as [Hk _]. }
    assert (Hnone : closing (acc ++ String c "")
                            (String c' k' ++ ws ++ "}}" ++ rest) = None).
    { rewrite E, str_app_assoc.
      change (String d u ++ ws ++ "}}" ++ rest) with (String d (u ++ ws ++ "}}" ++ rest)).
      unfold closing. apply greedy_star_blocked; auto using key_not_brace. }
    rewrite Hnone. rewrite (IH c' (acc ++ String c "") Hws Hk Hl).
    now rewrite str_app_assoc.
Qed.

(** The pattern at a placeholder with blanks around its key captures the
    key and leaves what follows the closing braces. *)
Lemma match_placeholder_tight ws1 k ws2 rest :
  all_in is_space ws1 = true -> all_in is_space ws2 = true -> tight_key k = true ->
  match_placeholder ("{{" ++ ws1 ++ k ++ ws2 ++ "}}" ++ rest) = Some (k, rest).
Proof.
  intros H1 H2 Hk. destruct k as [|c k']; [discriminate|].
  unfold tight_key in Hk. apply andb_prop in Hk as [Hk Hl].
  apply andb_prop in Hk as [Hk Hc].
  apply negb_true_iff in Hc, Hl.
  change (match_placeholder ("{{" ++ ws1 ++ String c k' ++ ws2 ++ "}}" ++ rest))
    with (greedy_star is_space (lazy_plus is_key "" closing)
            (ws1 ++ String c k' ++ ws2 ++ "}}" ++ rest)).
  apply greedy_star_pass; [exact H1|].
  change (String c k' ++ ws2 ++ "}}" ++ rest)
    with (String c (k' ++ ws2 ++ "}}" ++ rest)).
  cbn [greedy_star]. rewrite Hc.
  change (String c (k' ++ ws2 ++ "}}" ++ rest))
    with (String c k' ++ ws2 ++ "}}" ++ rest).
  now rewrite (lazy_plus_captures ws2 rest k' c "" H2 Hk Hl).
Qed.

(** X5: a placeholder at the head of a template, with any blanks around its
    key, is replaced by the string of the value the context gives for the
    normalised key, or kept as written when that value is null or
    undefined; the text behind it is rendered on its own, so what a value
    brings in is never scanned for placeholders. *)
Theorem processTemplate_placeholder (ws1 k ws2 rest : string) (ctx : gmap string value) :
  all_in is_space ws1 = true -> all_in is_space ws2 = true -> tight_key k = true ->
  processTemplate (VStr ("{{" ++ ws1 ++ k ++ ws2 ++ "}}" ++ rest)) ctx
  = (if non_nullish (JS.get ctx (normalizeColumnName k))
     then ToString (JS.get ctx (normalizeColumnName k))
     else "{{" ++ ws1 ++ k ++ ws2 ++ "}}")
    ++ processTemplate (VStr rest) ctx.
Proof.
  intros H1 H2 Hk. unfold processTemplate.
  pose proof (match_placeholder_tight ws1 k ws2 rest H1 H2 Hk) as Hm.
  match goal with |- replace_placeholders ?cb _ _ = _ =>
    destruct (replace_placeholders_match cb _ _ _ Hm) as (m & Hs & ->) end.
  assert (m = "{{" ++ ws1 ++ k ++ ws2 ++ "}}") as ->.
  { apply (str_app_inv_tail _ _ rest). rewrite <- Hs.
    change ("{{" ++ ws1 ++ k ++ ws2 ++ "}}" ++ rest)
      with ("{{" ++ (ws1 ++ k ++ ws2 ++ "}}" ++ rest)).
    change (("{{" ++ ws1 ++ k ++ ws2 ++ "}}") ++ rest)
      with ("{{" ++ ((ws1 ++ k ++ ws2 ++ "}}") ++ rest)).
    f_equal. now rewrite !str_app_assoc. }
  cbv beta zeta.
  replace (normalizeColumnName (trim k)) with (normalizeColumnName k)
    by (unfold normalizeColumnName; now rewrite trim_idem).
  reflexivity.
Qed.

(** X6: text without an opening brace is copied as it is, and rendering
    goes on behind it. *)
Theorem processTemplate_plain_prefix (a b : string) (ctx : gmap string value) :
  all_in (fun c => negb (Ascii.eqb c "{")) a = true ->
  processTemplate (VStr (a ++ b)) ctx = a ++ processTemplate (VStr b) ctx.
Proof.
  intros Ha. unfold processTemplate. induction a as [|c a IH]; [reflexivity|].
  simpl in Ha. apply andb_prop in Ha as [Hc Ha]. apply negb_true_iff in Hc.
  change (String c a ++ b) with (String c (a ++ b)).
  rewrite replace_placeholders_copy.
  - rewrite (IH Ha). reflexivity.
  - unfold match_placeholder, lit. now rewrite Hc.
Qed.

(** ** The job a tick leaves *)

(** A tick leaves the job it found, the job closed, or the job with the
    recipient at the cursor handled. *)
Lemma alarm_store_cases h st j :
  stored_job st = Some j ->
  stored_job (store_after (alarm h) st) = Some j \/
  (in_progress j = true /\ total j <= processed j /\
   stored_job (store_after (alarm h) st) = Some (set_in_progress false j)) \/
  (in_progress j = true /\ processed j < total j /\
   stored_job (store_after (alarm h) st) = Some (ticked h j)).
Proof.
  intros Hj. unfold store_after.
  destruct (in_progress j) eqn:Hp.
  - destruct (Z_lt_le_dec (processed j) (total j)) as [Hlt|Hle].
    + rewrite (alarm_running_eq h st j Hj Hp Hlt). cbv zeta.
      destruct (put_ok h); [|now left].
      right. right. repeat split; try assumption.
      destruct (processed _ <? total _); reflexivity.
    + rewrite (alarm_closing h st j Hj Hp Hle).
      destruct (put_ok h); [|now left]. right. left. auto.
  - left. rewrite alarm_idle; [assumption|]. now rewrite Hj.
Qed.

Lemma str_take_length n s : (String.length (str_take n s) <= n)%nat.
Proof.
  revert s. induction n as [|n IH]; intros [|c s]; simpl; try lia.
  specialize (IH s). lia.
Qed.

(** The job with the recipient handled: one more success, or one more
    entry in the ledger, for the cursor and with a bounded text. *)
Lemma handled_cases h j :
  fst (handled h j) = count_success j \/
  exists f, fst (handled h j) = push_failure f j /\ i f = processed j /\
            (String.length (error f) <= 180)%nat.
Proof.
  unfold handled. destruct (negb _).
  - right. eexists. repeat split. simpl. lia.
  - destruct (recipient_at _ _).
    + cbn [fst]. destruct (dispatch_error _ _).
      * right. eexists. repeat split. apply str_take_length.
      * now left.
    + right. eexists. repeat split. apply str_take_length.
Qed.

Lemma sorted_snoc {A} (R : A -> A -> Prop) l a :
  StronglySorted R l -> Forall (fun x => R x a) l -> StronglySorted R (l ++ [a])%list.
Proof.
  induction 1 as [|x l Hs IH Hx]; intros Ha; cbn.
  - repeat constructor.
  - apply Forall_cons_iff in Ha as [Hxa Ha]. constructor; [auto|].
    apply Forall_app. split; [assumption|]. now constructor.
Qed.

Lemma ledger_ticked h j :
  0 <= processed j -> ledger_ok j -> ledger_ok (ticked h j).
Proof.
  intros Hp (Hn & Hall & Hs). unfold ticked.
  destruct (handled_cases h j) as [->|(f & -> & Hi & He)];
    unfold ledger_ok; cbn [advance count_success push_failure failed failures processed].
  - repeat split; try assumption.
    eapply Forall_impl; [exact Hall|]. cbv beta. intros g. lia.
  - repeat split.
    + rewrite length_app, Nat2Z.inj_add. cbn. lia.
    + apply Forall_app. split.
      * eapply Forall_impl; [exact Hall|]. cbv beta. intros g. lia.
      * apply List.Forall_cons; [split; [lia|assumption]|apply List.Forall_nil].
    + apply sorted_snoc; [assumption|].
      eapply Forall_impl; [exact Hall|]. cbv beta. intros g. lia.
Qed.

Lemma reachable_cursor st :
  reachable st ->
  exists j, stored_job st = Some j /\ 0 <= processed j /\
            total j = Z.of_nat (List.length (recipients j)).
Proof.
  induction 1 as [h b st Hput|h st _ (j & Hj & Hp & Ht)].
  - rewrite init_store by assumption. eexists. split; [reflexivity|].
    split; cbn; [lia|reflexivity].
  - destruct (alarm_store_cases h st j Hj) as [H|[(_ & _ & H)|(_ & _ & H)]];
      rewrite H; eexists; (split; [reflexivity|]).
    + auto.
    + auto.
    + rewrite ticked_processed, ticked_total, ticked_recipients. split; [lia|assumption].
Qed.

Lemma reachable_ledger st :
  reachable st -> exists j, stored_job st = Some j /\ 0 <= processed j /\ ledger_ok j.
Proof.
  induction 1 as [h b st Hput|h st _ (j & Hj & Hp & Hl)].
  - rewrite init_store by assumption. eexists. split; [reflexivity|].
    split; [cbn; lia|]. repeat split; constructor.
  - destruct (alarm_store_cases h st j Hj) as [H|[(_ & _ & H)|(_ & _ & H)]];
      rewrite H; eexists; (split; [reflexivity|]).
    + auto.
    + auto.
    + rewrite ticked_processed. split; [lia|]. now apply ledger_ticked.
Qed.

(** X7: in every state reached from [init] by ticks the ledger has exactly
    [failed] entries, each with the index of a recipient already passed and
    an error text of at most 180 characters, and the indices are strictly
    increasing, so no recipient is entered twice. *)
Theorem ledger_invariant (st : Storage) (j : Job) :
  reachable st -> stored_job st = Some j -> ledger_ok j.
Proof.
  intros Hr Hj. destruct (reachable_ledger st Hr) as (j0 & Hj0 & _ & Hl).
  rewrite Hj in Hj0. now injection Hj0 as <-.
Qed.

(** X8: a tick, whatever it finds and whatever happens to it, leaves a job
    in the storage and never changes the job's id, creation time, total,
    recipients, interval, templates or last_tick. *)
Theorem tick_keeps_campaign (h : Host) (st : Storage) (j : Job) :
  stored_job st = Some j ->
  exists j', stored_job (store_after (alarm h) st) = Some j' /\ same_campaign j j'.
Proof.
  intros Hj.
  destruct (alarm_store_cases h st j Hj) as [H|[(_ & _ & H)|(_ & _ & H)]];
    rewrite H; eexists; (split; [reflexivity|]);
    try (repeat split; reflexivity).
  unfold ticked, handled. destruct (negb _); [repeat split|].
  destruct (recipient_at _ _); [|repeat split].
  cbn [fst]. destruct (dispatch_error _ _); repeat split.
Qed.

(** X9: in every state reached from [init] by ticks, total is the number of
    recipients and the cursor is not negative; so as long as processed <
    total the tick finds a recipient at the cursor. *)
Theorem cursor_in_range (st : Storage) (j : Job) :
  reachable st -> stored_job st = Some j ->
  total j = Z.of_nat (List.length (recipients j)) /\
  0 <= processed j /\
  (processed j < total j ->
   exists o, recipient_at (recipients j) (processed j) = Some o).
Proof.
  intros Hr Hj. destruct (reachable_cursor st Hr) as (j0 & Hj0 & Hp & Ht).
  rewrite Hj in Hj0. injection Hj0 as <-.
  repeat split; try assumption.
  intros Hlt. unfold recipient_at.
  destruct (processed j <? 0) eqn:E; [apply Z.ltb_lt in E; lia|].
  destruct (nth_error (recipients j) (Z.to_nat (processed j))) as [o|] eqn:En; [eauto|].
  apply nth_error_None in En. lia.
Qed.

(** ** Dispatches of a tick *)

Lemma handled_dispatch h j :
  snd (handled h j) = [] \/
  (isValidEmail (resolved_email j) = true /\
   exists o, recipient_at (recipients j) (processed j) = Some o /\
             snd (handled h j) = [EvDispatch (make_payload h j (resolved_email j) o)]).
Proof.
  unfold handled. destruct (isValidEmail (resolved_email j)); cbn [negb]; [|now left].
  destruct (recipient_at _ _) as [o|]; [|now left]. right. eauto.
Qed.

(** X10: a tick hands at most one message to the transport, and only for a
    job in progress with recipients left, addressed to the address resolved
    for the recipient at the cursor, which has passed the address test. *)
Theorem tick_dispatches_at_most_once (h : Host) (st : Storage) :
  match dispatched (trace_of (alarm h) st) with
  | [] => True
  | [p] =>
      exists j o,
        stored_job st = Some j /\ in_progress j = true /\ processed j < total j /\
        recipient_at (recipients j) (processed j) = Some o /\
        isValidEmail (resolved_email j) = true /\
        p = make_payload h j (resolved_email j) o /\
        to p = [resolved_email j]
  | _ => False
  end.
Proof.
  unfold trace_of.
  destruct (stored_job st) as [j|] eqn:Hj;
    [|rewrite alarm_idle by (now rewrite Hj); exact I].
  destruct (in_progress j) eqn:Hp;
    [|rewrite alarm_idle by (now rewrite Hj); exact I].
  destruct (Z_lt_le_dec (processed j) (total j)) as [Hlt|Hle].
  - rewrite (alarm_running_eq h st j Hj Hp Hlt). cbv zeta.
    destruct (handled_dispatch h j) as [->|(Hv & o & Hr & ->)];
      destruct (put_ok h); try destruct (processed _ <? total _);
      cbn; try exact I; exists j, o; repeat split; assumption.
  - rewrite (alarm_closing h st j Hj Hp Hle). destruct (put_ok h); exact I.
Qed.

(** ** A transport that always fails *)

Lemma ticked_failed_dispatch h j :
  (forall p, dispatch_error h p <> None) -> success (ticked h j) = success j.
Proof.
  intros Hk. unfold ticked, handled.
  destruct (negb (isValidEmail _)); [reflexivity|].
  destruct (recipient_at _ _) as [o|]; [|reflexivity].
  cbn [fst]. destruct (dispatch_error h _) eqn:E; [reflexivity|].
  now apply Hk in E.
Qed.

Lemma no_key_fails h p :
  truthy (SMTP2GO_API_KEY (env h)) = false ->
  dispatch_error h p = Some "Missing SMTP2GO_API_KEY".
Proof. intros H. unfold dispatch_error. now rewrite H. Qed.

(** X11: while every dispatch fails, as it does when the binding
    SMTP2GO_API_KEY is missing or empty, no tick counts a success: over any
    run of ticks the success counter stays where it was. *)
Theorem failing_dispatch_no_success (hs : list Host) (st : Storage) (j : Job) :
  Forall (fun h => truthy (SMTP2GO_API_KEY (env h)) = false \/
                   forall p, smtp2go h p <> None) hs ->
  stored_job st = Some j ->
  exists j', stored_job (ticks hs st) = Some j' /\ success j' = success j.
Proof.
  revert st j. induction hs as [|h hs IH]; intros st j Hall Hj.
  - exists j. auto.
  - apply Forall_cons_iff in Hall as [Hk Hall].
    cbn [ticks fold_left]. fold (ticks hs (store_after (alarm h) st)).
    destruct (alarm_store_cases h st j Hj) as [H|[(_ & _ & H)|(_ & _ & H)]];
      destruct (IH _ _ Hall H) as (j' & Hj' & Hs); exists j';
      (split; [exact Hj'|]); rewrite Hs; [reflexivity..|].
    apply ticked_failed_dispatch. intros p.
    destruct Hk as [Hk|Hk].
    + now rewrite (no_key_fails h p Hk).
    + unfold dispatch_error. destruct (negb _); [discriminate|apply Hk].
Qed.

(** ** The alarm *)

(** X12: a tick arms the alarm exactly when it has written the job after
    handling a recipient and recipients remain; it then arms it [interval]
    seconds after the current time.  In every other case, in particular
    after the last recipient, the alarm is left as it was. *)
Theorem tick_arms_alarm (h : Host) (st : Storage) (j : Job) :
  stored_job st = Some j ->
  armed (store_after (alarm h) st)
  = (if put_ok h && in_progress j && (processed j + 1 <? total j)
     then Some (now h + interval j * 1000)
     else armed st) /\
  existsb is_set_alarm (trace_of (alarm h) st)
  = put_ok h && in_progress j && (processed j + 1 <? total j).
Proof.
  intros Hj. unfold store_after, trace_of.
  destruct (in_progress j) eqn:Hp.
  - destruct (Z_lt_le_dec (processed j) (total j)) as [Hlt|Hle].
    + rewrite (alarm_running_eq h st j Hj Hp Hlt). cbv zeta.
      rewrite ticked_processed, ticked_total.
      assert (Hi : interval (ticked h j) = interval j).
      { unfold ticked, handled. destruct (negb _); [reflexivity|].
        destruct (recipient_at _ _); [|reflexivity].
        cbn [fst]. destruct (dispatch_error _ _); reflexivity. }
      rewrite Hi.
      destruct (put_ok h); cbn [andb fst snd];
        destruct (handled_trace h j) as [->|[p ->]];
        try destruct (processed j + 1 <? total j); split; reflexivity.
    + rewrite (alarm_closing h st j Hj Hp Hle).
      assert (Hc : (processed j + 1 <? total j) = false) by (apply Z.ltb_ge; lia).
      rewrite Hc, andb_false_r. destruct (put_ok h); split; reflexivity.
  - rewrite alarm_idle by (now rewrite Hj). rewrite andb_false_r. split; reflexivity.
Qed.

(** ** The scheduled run *)

Lemma reachable_ticks hs : forall st, reachable st -> reachable (ticks hs st).
Proof.
  induction hs as [|h hs IH]; intros st H; [exact H|].
  cbn [ticks fold_left]. apply IH. now constructor.
Qed.

Lemma ticks_snoc hs h st : ticks (hs ++ [h])%list st = store_after (alarm h) (ticks hs st).
Proof. unfold ticks. now rewrite fold_left_app. Qed.

(** While recipients remain, every tick whose write goes through handles
    one of them and leaves the flag raised. *)
Lemma ticks_running hs : forall st j,
  Forall (fun h => put_ok h = true) hs ->
  stored_job st = Some j ->
  in_progress j = true ->
  processed j + Z.of_nat (List.length hs) <= total j ->
  exists j', stored_job (ticks hs st) = Some j' /\
             in_progress j' = true /\
             processed j' = processed j + Z.of_nat (List.length hs) /\
             total j' = total j.
Proof.
  induction hs as [|h hs IH]; intros st j Hall Hj Hp Hlen.
  - exists j. cbn. repeat split; try assumption. lia.
  - apply Forall_cons_iff in Hall as [Hh Hall]. rewrite length_cons in Hlen.
    cbn [ticks fold_left]. fold (ticks hs (store_after (alarm h) st)).
    pose proof (alarm_persisted h st j Hj) as H. rewrite Hh, Hp in H. cbn [andb] in H.
    assert (Hc : (total j <=? processed j) = false) by (apply Z.leb_gt; lia).
    rewrite Hc in H. destruct H as (j1 & Hj1 & Hp1 & Ht1 & _ & Hi1 & _).
    destruct (IH (store_after (alarm h) st) j1 Hall Hj1 Hi1) as (j' & Hj' & Hf & Hpr & Ht);
      [lia|].
    exists j'. rewrite length_cons. repeat split; try assumption; lia.
Qed.

(** X13: the run the code schedules.  [init] sets one alarm and a tick
    sets the next one only while recipients remain, so a job of n >= 1
    recipients gets n ticks.  When the storage accepts every write, after
    these n ticks processed equals n and every recipient has been counted as
    a success or as a failure, but the flag in_progress is still raised; the
    n-th tick calls no setAlarm, so no tick is left that would lower it. *)
Theorem scheduled_run_stays_open
        (h0 : Host) (b : InitBody) (st0 : Storage) (hs : list Host) (h : Host) :
  put_ok h0 = true ->
  Forall (fun h => put_ok h = true) hs ->
  put_ok h = true ->
  List.length (init_recipients b) = S (List.length hs) ->
  existsb is_set_alarm (trace_of (alarm h) (ticks hs (store_after (init h0 b) st0)))
  = false /\
  exists j,
    stored_job (ticks (hs ++ [h])%list (store_after (init h0 b) st0)) = Some j /\
    in_progress j = true /\
    processed j = Z.of_nat (List.length (init_recipients b)) /\
    total j = Z.of_nat (List.length (init_recipients b)) /\
    success j + failed j = Z.of_nat (List.length (init_recipients b)).
Proof.
  intros H0 Hall Hh Hlen.
  pose proof (init_store h0 b st0 H0) as Hst.
  destruct (ticks_running hs (store_after (init h0 b) st0) (fresh_job h0 b) Hall)
    as (j & Hj & Hf & Hp & Ht).
  - now rewrite Hst.
  - reflexivity.
  - cbn. lia.
  - cbn in Hp, Ht.
    destruct (last_recipient_tick h _ j Hj Hf ltac:(lia) Hh) as (Htr & Hst' & Hflag).
    split; [exact Htr|].
    exists (ticked h j). rewrite ticks_snoc, Hst'.
    split; [reflexivity|]. split; [exact Hflag|].
    rewrite ticked_processed, ticked_total.
    split; [lia|]. split; [lia|].
    assert (Hr : reachable (ticks (hs ++ [h])%list (store_after (init h0 b) st0)))
      by (apply reachable_ticks; now constructor).
    destruct (reachable_counters _ Hr) as (j0 & Hj0 & Heq & _).
    rewrite ticks_snoc, Hst' in Hj0. injection Hj0 as <-.
    rewrite ticked_processed in Heq. lia.
Qed.

(** ** Starting a job *)

(** X14: [init] replaces whatever the storage held.  When its write goes
    through, [status] then answers 200 with total = number of recipients,
    processed = success = failed = 0, an empty ledger, the flag raised and
    no recipients list, and the alarm is set [interval] seconds ahead; when
    the write fails, [init] throws and job and alarm are as they were. *)
Theorem init_then_status (h : Host) (b : InitBody) (st : Storage) :
  if put_ok h then
    armed (store_after (init h b) st) = Some (now h + init_interval b * 1000) /\
    exists r,
      outcome_of status (store_after (init h b) st) = Ret r /\
      status_code r = 200 /\
      obj_get "total" (body r) = Some (FNum (Z.of_nat (List.length (init_recipients b)))) /\
      obj_get "processed" (body r) = Some (FNum 0) /\
      obj_get "success" (body r) = Some (FNum 0) /\
      obj_get "failed" (body r) = Some (FNum 0) /\
      obj_get "failures" (body r) = Some (FFailures []) /\
      obj_get "in_progress" (body r) = Some (FBool true) /\
      obj_get "recipients" (body r) = None
  else
    outcome_of (init h b) st = Throw "storage put failed" /\
    store_after (init h b) st = st /\
    trace_of (init h b) st = [].
Proof.
  destruct (put_ok h) eqn:Hput.
  - rewrite (init_store h b st Hput). split; [reflexivity|].
    eexists. split; [reflexivity|].
    cbn [status_code body]. split; [reflexivity|].
    rewrite !obj_get_set, !obj_get_delete. cbn [String.eqb Ascii.eqb Bool.eqb].
    repeat split; reflexivity.
  - unfold outcome_of, store_after, trace_of, run, init, bind, storage_put.
    rewrite Hput. repeat split.
Qed.

(** ** The percentage at both ends *)

Lemma ends_exact_sound n : forall t u,
  ends_exact t n = true -> t <= u < t + Z.of_nat n ->
  percent_floor 0 u = 0 /\ percent_floor u u = 100.
Proof.
  induction n as [|n IH]; intros t u H Hu; [lia|].
  cbn [ends_exact] in H. apply andb_prop in H as [H Hrest].
  apply andb_prop in H as [H0 H100].
  destruct (Z.eq_dec u t) as [->|Hne].
  - split; now apply Z.eqb_eq.
  - apply (IH (t + 1)); [exact Hrest|lia].
Qed.

Lemma ends_exact_1000 : ends_exact 1 1000 = true.
Proof. vm_compute. reflexivity. Qed.

(** X15: for a job of up to 1000 recipients, the cap of the campaign
    endpoint, the status view shows 0 percent before the first recipient
    and 100 percent once all are processed. *)
Theorem completion_percentage_ends (j : Job) :
  0 < total j <= 1000 ->
  (processed j = 0 -> completion_percentage j = 0) /\
  (processed j = total j -> completion_percentage j = 100).
Proof.
  intros Ht. unfold completion_percentage.
  destruct (total j =? 0) eqn:E; [apply Z.eqb_eq in E; lia|].
  destruct (ends_exact_sound 1000 1 (total j) ends_exact_1000 ltac:(lia)) as [H0 H100].
  split; intros ->; assumption.
Qed.

(** ** The object's request entry *)

Lemma status_run st :
  exists r, run status st = (Ret r, (st, [EvGet])) /\
            (status_code r = 404 <-> stored_job st = None) /\
            (forall j, stored_job st = Some j ->
                       r = mkResponse 200
                             (obj_set "completion_percentage"
                                (FNum (completion_percentage j))
                                (obj_delete "recipients" (object_of_job j)))).
Proof.
  unfold run, status, bind, storage_get, ret. cbn [app].
  destruct (stored_job st) as [j|]; eexists; (split; [reflexivity|]); cbn.
  - split; [split; discriminate|]. now intros j' [= <-].
  - split; [split; reflexivity|]. discriminate.
Qed.

(** X16: the object's [fetch] writes only for POST /job/init.  Every other
    request, also one for /job/alarm, is answered without a tick being run:
    the storage stays as it is and neither a put nor a setAlarm happens. *)
Theorem JobStore_fetch_read_only (h : Host) (request : DoRequest) (st : Storage) :
  String.eqb (do_pathname request) "/job/init" && String.eqb (do_method request) "POST"
  = false ->
  store_after (JobStore_fetch h request) st = st /\
  existsb (fun e => is_put e || is_set_alarm e) (trace_of (JobStore_fetch h request) st)
  = false /\
  exists r, outcome_of (JobStore_fetch h request) st = Ret r.
Proof.
  intros H. unfold store_after, trace_of, outcome_of, JobStore_fetch. rewrite H.
  destruct (String.eqb (do_pathname request) "/job/status").
  - unfold run, bind. destruct (status_run st) as (r & Hr & _).
    unfold run in Hr. rewrite Hr. cbn. eauto.
  - destruct (String.eqb (do_pathname request) "/job/alarm"); cbn; eauto.
Qed.

(** ** The interval of a campaign *)

Lemma parse_digits_some n s : exists m, parse_digits (Some n) s = Some m.
Proof.
  revert n. induction s as [|c s IH]; intros n; cbn [parse_digits]; [eauto|].
  destruct (is_digit c); eauto.
Qed.

Lemma digit_not_sign c :
  is_digit c = true -> Ascii.eqb c "-" = false /\ Ascii.eqb c "+" = false.
Proof. by_cases_on_char c. Qed.

(** X17: the interval the campaign endpoint derives from the form field is
    between 1 and 20 whenever the field reads as a number; it is 4 when the
    field is missing or empty, and it is a number whenever the field, after
    leading blanks, starts with a digit. *)
Theorem clamp_interval_range (v : value) :
  (forall n, clamp_interval v = Some n -> 1 <= n <= 20) /\
  (truthy v = false -> clamp_interval v = Some 4) /\
  (forall s c s', v = VStr s -> trim_start s = String c s' -> is_digit c = true ->
                  exists n, clamp_interval v = Some n).
Proof.
  split; [|split].
  - intros n. unfold clamp_interval.
    destruct (parseInt10 _) as [m|]; cbn; [|discriminate].
    intros [= <-]. lia.
  - intros H. unfold clamp_interval. rewrite (or_falsy _ _ H). reflexivity.
  - intros s c s' -> Ht Hd. unfold clamp_interval.
    assert (Hs : truthy (VStr s) = true) by (destruct s; [discriminate|reflexivity]).
    rewrite (or_truthy _ _ Hs). cbn [ToString]. unfold parseInt10. rewrite Ht.
    destruct (digit_not_sign c Hd) as [-> ->].
    cbn [parse_digits]. rewrite Hd.
    destruct (parse_digits_some (10 * 0 + (Z.of_N (code c) - 48)) s') as (m & ->).
    cbn. eauto.
Qed.

(** ** The campaign endpoint *)

Lemma storage_of_insert (ns : gmap string Storage) k st name :
  storage_of (<[k := st]> ns) name
  = if String.eqb k name then st else storage_of ns name.
Proof.
  unfold storage_of. destruct (String.eqb k name) eqn:E.
  - apply String.eqb_eq in E as ->. now rewrite lookup_insert_eq.
  - apply String.eqb_neq in E. now rewrite lookup_insert_ne.
Qed.

Lemma storage_of_insert_same (ns : gmap string Storage) k name :
  storage_of (<[k := storage_of ns k]> ns) name = storage_of ns name.
Proof.
  rewrite storage_of_insert. destruct (String.eqb k name) eqn:E; [|reflexivity].
  now apply String.eqb_eq in E as ->.
Qed.

Lemma fetch_init_run h b st :
  run (JobStore_fetch h (mkDoRequest "/job/init" "POST" (Some b))) st
  = if put_ok h
    then (Ret (DoJson (mkResponse 200 [("ok", FBool true)])),
          (mkStorage (Some (fresh_job h b)) (Some (now h + init_interval b * 1000)),
           [EvPut (fresh_job h b); EvSetAlarm (now h + init_interval b * 1000)]))
    else (Throw "storage put failed", (st, [])).
Proof.
  unfold run, JobStore_fetch. cbn [do_pathname do_method do_json String.eqb Ascii.eqb Bool.eqb andb].
  unfold bind, init, bind, storage_put, storage_setAlarm, ret.
  destruct (put_ok h); reflexivity.
Qed.

Lemma fetch_status_run h st :
  exists r, run (JobStore_fetch h (mkDoRequest "/job/status" "GET" None)) st
            = (Ret (DoJson r), (st, [EvGet])) /\
            (status_code r = 404 <-> stored_job st = None) /\
            (forall j, stored_job st = Some j ->
                       r = mkResponse 200
                             (obj_set "completion_percentage"
                                (FNum (completion_percentage j))
                                (obj_delete "recipients" (object_of_job j)))).
Proof.
  destruct (status_run st) as (r & Hr & H404 & Hj). exists r.
  split; [|split; assumption].
  unfold run, JobStore_fetch. cbn [do_pathname do_method String.eqb Ascii.eqb Bool.eqb andb].
  unfold bind. unfold run in Hr. now rewrite Hr.
Qed.

Lemma clamp_interval_body v :
  let n := match clamp_interval v with Some n => n | None => 0 end in
  1 <= n <= 20 \/ n = 0.
Proof.
  cbv zeta. unfold clamp_interval. destruct (parseInt10 _); cbn; lia.
Qed.

(** The outcomes of [bulkCreate]: the job created under the drawn id, or
    nothing changed and no success reported. *)
Lemma bulkCreate_cases pf request ns :
  let out := bulkCreate pf request ns in
  let id := randomUUID pf in
  mails out = [] /\
  (forall name, name <> id -> storage_of (spaces out) name = storage_of ns name) /\
  ((exists recipients body iv,
       (1 <= List.length recipients <= 1000)%nat /\
       init_id body = id /\
       init_recipients body = map object_through_json recipients /\
       (1 <= init_interval body <= 20 \/ init_interval body = 0) /\
       put_ok (host pf) = true /\
       reply out
       = Ret (Json 200
                (WObj [("success", WBool true); ("job_id", WStr id);
                       ("details",
                        WObj [("total_emails", WNum (Z.of_nat (List.length recipients)));
                              ("interval", iv)])])) /\
       storage_of (spaces out) id
       = mkStorage (Some (fresh_job (host pf) body))
                   (Some (now (host pf) + init_interval body * 1000))) \/
   (storage_of (spaces out) id = storage_of ns id /\
    match reply out with Ret (Json 200 _) => False | _ => True end)).
Proof.
  cbv zeta. unfold bulkCreate.
  destruct (parseFormData request) as [[fields files]|msg];
    [|cbn; repeat split; auto].
  destruct fields as [o|]; cbn [field_of]; [|cbn; repeat split; auto].
  destruct (truthy (JS.get o "recipients")); cbn [negb]; [|cbn; repeat split; auto].
  destruct (JSON_parse pf _) as [| |[|r rs]]; try (cbn; repeat split; auto; fail).
  set (recipients := r :: rs).
  destruct (1000 <? Z.of_nat (List.length recipients)) eqn:Hmax;
    [cbn; repeat split; auto|].
  apply Z.ltb_ge in Hmax. cbn [andThen].
  rewrite fetch_init_run.
  assert (Hok : response_ok (DoJson (mkResponse 200 [("ok", FBool true)])) = true)
    by reflexivity.
  destruct (put_ok (host pf)) eqn:Hput; rewrite ?Hok; cbn [negb mails spaces reply].
  - split; [reflexivity|]. split.
    + intros name Hne. rewrite storage_of_insert.
      destruct (String.eqb (randomUUID pf) name) eqn:E; [|reflexivity].
      apply String.eqb_eq in E. congruence.
    + left. eexists recipients, (init_body _ _ _ _ _ _ _), _.
      split; [unfold recipients in Hmax |- *; cbn [List.length] in Hmax |- *; lia|].
      split; [reflexivity|]. split; [reflexivity|].
      split; [apply clamp_interval_body|]. split; [reflexivity|].
      split; [reflexivity|]. now rewrite storage_of_insert, String.eqb_refl.
  - split; [reflexivity|]. split.
    + intros name _. apply storage_of_insert_same.
    + right. split; [apply storage_of_insert_same|exact I].
Qed.

(** X18: the campaign endpoint creates the job of its request or changes
    nothing.  It never sends a message and never touches an object other
    than the one named by the id it draws.  It reports success only when the
    request's field "recipients" parses, by [JSON.parse], to a list of 1 to
    1000 entries and the write of the object goes through; the reply then
    counts these entries.  With a readable interval the reply carries the
    interval clamped to 1..20, and the object holds the fresh job made of
    exactly this list and of the request's subject, html_content,
    from_email_template and from_name_template (the empty string for a
    missing one), with that interval and the alarm set that many seconds
    ahead; with an unreadable interval the reply carries null.  In every
    other case the object is as before and no success is reported. *)
Theorem bulkCreate_all_or_nothing
        (pf : Platform) (request : Request) (ns : gmap string Storage) :
  let out := bulkCreate pf request ns in
  let id := randomUUID pf in
  mails out = [] /\
  (forall name, name <> id -> storage_of (spaces out) name = storage_of ns name) /\
  ((storage_of (spaces out) id = storage_of ns id /\
    match reply out with Ret (Json 200 _) => False | _ => True end) \/
   (exists fields files recipients,
       parseFormData request = Ret (Some fields, files) /\
       truthy (JS.get fields "recipients") = true /\
       JSON_parse pf (ToString (JS.get fields "recipients")) = ParsedArray recipients /\
       (1 <= List.length recipients <= 1000)%nat /\
       put_ok (host pf) = true /\
       match clamp_interval (JS.get fields "interval") with
       | Some n =>
           1 <= n <= 20 /\
           reply out
           = Ret (Json 200
                    (WObj [("success", WBool true); ("job_id", WStr id);
                           ("details",
                            WObj [("total_emails",
                                   WNum (Z.of_nat (List.length recipients)));
                                  ("interval", WNum n)])])) /\
           storage_of (spaces out) id
           = mkStorage
               (Some (fresh_job (host pf)
                        (mkInitBody id
                           (map object_through_json recipients)
                           (through_json (JS.or (JS.get fields "subject") (VStr "")))
                           (through_json (JS.or (JS.get fields "html_content") (VStr "")))
                           n
                           (through_json
                              (JS.or (JS.get fields "from_email_template") (VStr "")))
                           (through_json
                              (JS.or (JS.get fields "from_name_template") (VStr ""))))))
               (Some (now (host pf) + n * 1000))
       | None =>
           reply out
           = Ret (Json 200
                    (WObj [("success", WBool true); ("job_id", WStr id);
                           ("details",
                            WObj [("total_emails",
                                   WNum (Z.of_nat (List.length recipients)));
                                  ("interval", WNull)])]))
       end)).
Proof.
  cbv zeta. unfold bulkCreate.
  destruct (parseFormData request) as [[fields files]|msg] eqn:Hform;
    [|cbn; repeat split; auto].
  destruct fields as [o|]; cbn [field_of]; [|cbn; repeat split; auto].
  destruct (truthy (JS.get o "recipients")) eqn:Htext; cbn [negb];
    [|cbn; repeat split; auto].
  destruct (JSON_parse pf _) as [| |[|r rs]] eqn:Hparse;
    try (cbn; repeat split; auto; fail).
  set (recipients := r :: rs) in *.
  destruct (1000 <? Z.of_nat (List.length recipients)) eqn:Hmax;
    [cbn; repeat split; auto|].
  apply Z.ltb_ge in Hmax. cbn [andThen].
  rewrite fetch_init_run.
  assert (Hok : response_ok (DoJson (mkResponse 200 [("ok", FBool true)])) = true)
    by reflexivity.
  destruct (put_ok (host pf)) eqn:Hput; rewrite ?Hok; cbn [negb mails spaces reply].
  - split; [reflexivity|]. split.
    + intros name Hne. rewrite storage_of_insert.
      destruct (String.eqb (randomUUID pf) name) eqn:E; [|reflexivity].
      apply String.eqb_eq in E. congruence.
    + right. exists o, files, recipients.
      split; [reflexivity|]. split; [exact Htext|]. split; [exact Hparse|].
      split; [unfold recipients in Hmax |- *; cbn [List.length] in Hmax |- *; lia|].
      split; [reflexivity|].
      rewrite storage_of_insert, String.eqb_refl. unfold init_body.
      destruct (clamp_interval (JS.get o "interval")) as [n|] eqn:Hiv; [|reflexivity].
      split; [|split; reflexivity].
      unfold clamp_interval in Hiv.
      destruct (parseInt10 _); [|discriminate].
      cbn in Hiv. injection Hiv as <-. lia.
  - split; [reflexivity|]. split.
    + intros name _. apply storage_of_insert_same.
    + left. split; [apply storage_of_insert_same|exact I].
Qed.

(** ** Asking for a job *)

(** X19: the status endpoint answers 404 "Job not found" for an id under
    which no job is stored, and leaves every object as it is. *)
Theorem bulkStatus_unknown (pf : Platform) (jobId : string) (ns : gmap string Storage) :
  stored_job (storage_of ns jobId) = None ->
  reply (bulkStatus pf jobId ns) = Ret (failure_json 404 "Job not found") /\
  mails (bulkStatus pf jobId ns) = [] /\
  forall name, storage_of (spaces (bulkStatus pf jobId ns)) name = storage_of ns name.
Proof.
  intros Hnone. unfold bulkStatus.
  destruct (fetch_status_run (host pf) (storage_of ns jobId)) as (r & -> & H404 & _).
  apply H404 in Hnone. rewrite Hnone. cbn.
  repeat split. intros name. apply storage_of_insert_same.
Qed.

Lemma bulkStatus_known pf jobId ns j :
  stored_job (storage_of ns jobId) = Some j ->
  reply (bulkStatus pf jobId ns)
  = Ret (Json 200
           (WObj [("success", WBool true);
                  ("status",
                   WView (obj_set "completion_percentage"
                            (FNum (completion_percentage j))
                            (obj_delete "recipients" (object_of_job j))))])).
Proof.
  intros Hj. unfold bulkStatus.
  destruct (fetch_status_run (host pf) (storage_of ns jobId)) as (r & -> & _ & Hr).
  rewrite (Hr j Hj). reflexivity.
Qed.

Lemma bulkStatus_spaces pf jobId ns name :
  storage_of (spaces (bulkStatus pf jobId ns)) name = storage_of ns name /\
  mails (bulkStatus pf jobId ns) = [].
Proof.
  unfold bulkStatus.
  destruct (fetch_status_run (host pf) (storage_of ns jobId)) as (r & -> & _).
  destruct (status_code r =? 404); cbn; split; auto using storage_of_insert_same.
Qed.

Lemma last_piece_no_slash s : forall acc,
  all_in (fun c => negb (Ascii.eqb c "/")) s = true -> last_piece acc s = acc ++ s.
Proof.
  induction s as [|c s IH]; intros acc H; cbn [last_piece].
  - now rewrite str_app_nil_r.
  - simpl in H. apply andb_prop in H as [Hc H]. apply negb_true_iff in Hc.
    rewrite Hc, (IH _ H), str_app_assoc. reflexivity.
Qed.

Lemma prefix_app p s : String.prefix p (p ++ s) = true.
Proof.
  induction p as [|c p IH]; [now destruct s|].
  change (String c p ++ s) with (String c (p ++ s)). cbn [String.prefix].
  destruct (ascii_dec c c); [exact IH|contradiction].
Qed.

(** The route of the status endpoint, for an id without slash. *)
Lemma handle_status_route pf ct jb fe up id ns :
  all_in (fun c => negb (Ascii.eqb c "/")) id = true ->
  handle pf (mkRequest "GET" ("/api/bulk-status/" ++ id) ct jb fe up) ns
  = bulkStatus pf id ns.
Proof.
  intros H. unfold handle. cbn [method pathname]. rewrite prefix_app.
  change ("/api/bulk-status/" ++ id)
    with (String "/" (String "a" (String "p" (String "i" (String "/"
         (String "b" (String "u" (String "l" (String "k" (String "-"
         (String "s" (String "t" (String "a" (String "t" (String "u"
         (String "s" (String "/" id))))))))))))))))).
  cbn [String.eqb Ascii.eqb Bool.eqb andb last_piece].
  now rewrite (last_piece_no_slash id "" H).
Qed.

(** X20: a campaign the endpoint reports as created can be read back: a
    later GET /api/bulk-status/<job_id> is answered 200 with the view of the
    fresh job: total as reported, nothing processed, the flag raised, no
    recipients list. *)
Theorem create_then_status
        (pf pf' : Platform) (request : Request) (ns : gmap string Storage)
        (b : WJson) ct jb fe up :
  reply (bulkCreate pf request ns) = Ret (Json 200 b) ->
  all_in (fun c => negb (Ascii.eqb c "/")) (randomUUID pf) = true ->
  exists n iv view,
    b = WObj [("success", WBool true); ("job_id", WStr (randomUUID pf));
              ("details", WObj [("total_emails", WNum n); ("interval", iv)])] /\
    reply (handle pf' (mkRequest "GET" ("/api/bulk-status/" ++ randomUUID pf) ct jb fe up)
                  (spaces (bulkCreate pf request ns)))
    = Ret (Json 200 (WObj [("success", WBool true); ("status", WView view)])) /\
    obj_get "id" view = Some (FStr (randomUUID pf)) /\
    obj_get "total" view = Some (FNum n) /\
    obj_get "processed" view = Some (FNum 0) /\
    obj_get "in_progress" view = Some (FBool true) /\
    obj_get "recipients" view = None.
Proof.
  intros Hreply Hid.
  destruct (bulkCreate_cases pf request ns) as (_ & _ & [H|[_ H]]); cbv zeta in *;
    [|rewrite Hreply in H; contradiction].
  destruct H as (rs & body & iv & Hlen & Hbid & Hrs & _ & _ & Hr & Hst).
  rewrite Hreply in Hr. injection Hr as ->.
  eexists _, iv, _. split; [reflexivity|].
  rewrite (handle_status_route pf' ct jb fe up _ _ Hid).
  rewrite (bulkStatus_known pf' _ _ (fresh_job (host pf) body))
    by (now rewrite Hst).
  split; [reflexivity|].
  rewrite !obj_get_set, !obj_get_delete. cbn [String.eqb Ascii.eqb Bool.eqb].
  cbn [object_of_job obj_get String.eqb Ascii.eqb Bool.eqb fresh_job id total processed
       in_progress].
  rewrite Hbid, Hrs, length_map. repeat split.
Qed.

(** X21: no request to the worker changes a stored job other than by
    creating one: whatever the request, every object except the one named
    by the freshly drawn id is as before, and unless the request is
    POST /api/send-bulk that one is as before too.  In particular no
    request runs a tick or resets a counter. *)
Theorem handle_keeps_jobs
        (pf : Platform) (request : Request) (ns : gmap string Storage) (name : string) :
  (name <> randomUUID pf \/
   String.eqb (pathname request) "/api/send-bulk" && String.eqb (method request) "POST"
   = false) ->
  storage_of (spaces (handle pf request ns)) name = storage_of ns name.
Proof.
  intros H. unfold handle.
  destruct (String.eqb (method request) "GET" && String.eqb (pathname request) "/");
    [reflexivity|].
  destruct (String.eqb (pathname request) "/api/send-email"
            && String.eqb (method request) "POST"); [reflexivity|].
  destruct (String.eqb (pathname request) "/api/send-bulk"
            && String.eqb (method request) "POST").
  - destruct H as [H|H]; [|discriminate].
    destruct (bulkCreate_cases pf request ns) as (_ & Hother & _). now apply Hother.
  - destruct (String.prefix "/api/bulk-status/" (pathname request)
              && String.eqb (method request) "GET"); [|reflexivity].
    apply bulkStatus_spaces.
Qed.

(** ** Single send *)

Lemma read_attachments_read pf files : forall t acc atts,
  t <= 5 * 1024 * 1024 ->
  read_attachments pf files t acc = Ret (inl atts) ->
  t + total_size files <= 5 * 1024 * 1024 /\
  map filename atts = (map filename acc ++ map file_name files)%list.
Proof.
  induction files as [|f files IH]; intros t acc atts Ht; cbn [read_attachments].
  - intros [= <-]. cbn. rewrite app_nil_r. split; [lia|reflexivity].
  - destruct (5 * 1024 * 1024 <? t + file_size f) eqn:E; [discriminate|].
    apply Z.ltb_ge in E.
    destruct (read_base64 pf f) as [b64|msg]; [|discriminate].
    intros H. apply IH in H as [Hs Hn]; [|exact E]. split.
    + cbn [total_size fold_right]. fold (total_size files). lia.
    + rewrite Hn, map_app, <- app_assoc. reflexivity.
Qed.

Lemma read_attachments_refused pf files : forall t acc resp,
  read_attachments pf files t acc = Ret (inr resp) ->
  resp = failure_json 413 "Attachments exceed 5MB limit." /\
  5 * 1024 * 1024 < t + total_size files.
Proof.
  induction files as [|f files IH]; intros t acc resp; cbn [read_attachments];
    [discriminate|].
  destruct (5 * 1024 * 1024 <? t + file_size f) eqn:E.
  - apply Z.ltb_lt in E. intros [= <-]. split; [reflexivity|].
    cbn [total_size fold_right]. fold (total_size files).
    assert (0 <= total_size files).
    { clear. induction files as [|g files IH]; cbn; [lia|].
      fold (total_size files). unfold file_size. lia. }
    lia.
  - destruct (read_base64 pf f) as [b64|msg]; [|discriminate].
    intros H. apply IH in H as [-> Hs]. split; [reflexivity|].
    cbn [total_size fold_right]. fold (total_size files). lia.
Qed.

Lemma negb_false b : negb b = false -> b = true.
Proof. now destruct b. Qed.

(** X22: a single send calls the transport at most once, and only with a
    message that passed every check: recipient and sender addresses pass the
    address test, subject and body are not empty, and the attached files are
    those sent under the key "attachments", together at most 5 MiB; the
    answer is then 200 or, when the transport fails, 502.  Every other
    answer comes without the transport having been called. *)
Theorem singleSend_sends_checked (pf : Platform) (request : Request) :
  match snd (singleSend_run pf request) with
  | [] =>
      match fst (singleSend_run pf request) with
      | Ret (Json 200 _) | Ret (Json 502 _) => False
      | _ => True
      end
  | [(p, atts)] =>
      exists recipient fromEmail fromName fields files,
        parseFormData request = Ret (fields, files) /\
        to p = [VStr recipient] /\ isValidEmail (VStr recipient) = true /\
        non_empty (subject p) = true /\ non_empty (html_body p) = true /\
        isValidEmail (VStr fromEmail) = true /\
        sender p = VStr (if non_empty fromName
                         then fromName ++ " <" ++ fromEmail ++ ">" else fromEmail) /\
        map filename atts = map file_name (attached files) /\
        total_size (attached files) <= 5 * 1024 * 1024 /\
        match fst (singleSend_run pf request) with
        | Ret (Json code _) => code = 200 \/ code = 502
        | _ => False
        end
  | _ => False
  end.
Proof.
  unfold singleSend_run.
  destruct (parseFormData request) as [[fields files]|msg] eqn:Hparse; [|exact I].
  destruct fields as [o|]; cbn [field_of andThen]; [|exact I].
  destruct (trim_value (JS.or (JS.get o "to_email") (VStr ""))) as [recipient|];
    cbn [andThen]; [|exact I].
  destruct (trim_value (JS.or (JS.get o "subject") (VStr ""))) as [subj|];
    cbn [andThen]; [|exact I].
  destruct (trim_value (JS.or (JS.get o "html_content") (VStr ""))) as [html|];
    cbn [andThen]; [|exact I].
  destruct (negb (non_empty recipient && non_empty subj && non_empty html)) eqn:Hfill;
    [exact I|].
  apply negb_false in Hfill. apply andb_prop in Hfill as [Hfill Hhtml].
  apply andb_prop in Hfill as [_ Hsubj].
  destruct (negb (isValidEmail (VStr recipient))) eqn:Hto; [exact I|].
  apply negb_false in Hto.
  destruct (trim_value (JS.or (JS.or (JS.get o "from_email") _) (VStr ""))) as [fromEmail|];
    cbn [andThen]; [|exact I].
  destruct (trim_value (JS.or (JS.or (JS.get o "from_name") _) (VStr ""))) as [fromName|];
    cbn [andThen]; [|exact I].
  destruct (negb (isValidEmail (VStr fromEmail))) eqn:Hfrom; [exact I|].
  apply negb_false in Hfrom.
  fold (attached files).
  destruct (read_attachments pf (attached files) 0 []) as [[atts|resp]|] eqn:Hread;
    [|apply read_attachments_refused in Hread as [-> _]; exact I|exact I].
  apply read_attachments_read in Hread as [Hsize Hnames]; [|lia].
  destruct (fetchSMTP2GO_single pf _ atts); cbn [fst snd];
    exists recipient, fromEmail, fromName, (Some o), files;
    cbn [to subject html_body sender failure_json];
    (split; [reflexivity|]); (split; [reflexivity|]); (split; [exact Hto|]);
    (split; [exact Hsubj|]); (split; [exact Hhtml|]); (split; [exact Hfrom|]);
    (split; [reflexivity|]); (split; [exact Hnames|]); (split; [lia|]); auto.
Qed.

(** ** Bodies the worker cannot read *)

Lemma get_empty k : Object_prototype k = None -> JS.get ∅ k = VUndef.
Proof. intros H. unfold JS.get. now rewrite lookup_empty, H. Qed.

(** X23: a request whose content type is none of the three the worker
    reads is handled as a request without fields, whatever its body holds:
    the single send answers 400 "Missing required fields." and the campaign
    endpoint 400 "Missing recipients JSON."; nothing is sent or stored. *)
Theorem unread_body_is_rejected
        (pf : Platform) (request : Request) (ns : gmap string Storage) :
  let contentType := match content_type request with Some s => s | None => "" end in
  str_includes "application/json" contentType = false ->
  String.prefix "multipart/form-data" contentType = false ->
  str_includes "application/x-www-form-urlencoded" contentType = false ->
  singleSend pf request ns
  = mkWOutcome (Ret (failure_json 400 "Missing required fields.")) ns [] /\
  bulkCreate pf request ns
  = mkWOutcome (Ret (failure_json 400 "Missing recipients JSON.")) ns [].
Proof.
  cbv zeta. intros H1 H2 H3.
  assert (Hp : parseFormData request = Ret (Some ∅, [])).
  { unfold parseFormData. cbv zeta. now rewrite H1, H2, H3. }
  split.
  - unfold singleSend, singleSend_run. rewrite Hp. cbn [field_of andThen].
    rewrite !get_empty by reflexivity. reflexivity.
  - unfold bulkCreate. rewrite Hp. cbn [field_of].
    rewrite get_empty by reflexivity. reflexivity.
Qed.

(** ** The endpoint of SMTP2GO *)

Lemma drop_final_slash_snoc b : drop_final_slash (b ++ "/") = b.
Proof.
  induction b as [|c b IH]; [reflexivity|].
  change (String c b ++ "/") with (String c (b ++ "/")).
  cbn [drop_final_slash]. rewrite IH.
  destruct (b ++ "/") eqn:E; [|reflexivity].
  destruct b; discriminate.
Qed.

Lemma drop_final_slash_none c b :
  Ascii.eqb (last_char c b) "/" = false -> drop_final_slash (String c b) = String c b.
Proof.
  revert c. induction b as [|d b IH]; intros c H.
  - cbn in H. cbn [drop_final_slash]. now rewrite H.
  - change (drop_final_slash (String c (String d b)))
      with (String c (drop_final_slash (String d b))).
    now rewrite (IH d H).
Qed.

(** X24: one slash at the end of the binding SMTP2GO_API_URL makes no
    difference: with or without it the requests go to the base followed by
    "/email/send". *)
Theorem apiUrl_final_slash (e e' : Env) (c : ascii) (b : string) :
  Ascii.eqb (last_char c b) "/" = false ->
  SMTP2GO_API_URL e = VStr (String c b) ->
  SMTP2GO_API_URL e' = VStr (String c b ++ "/") ->
  apiUrl e = String c b ++ "/email/send" /\ apiUrl e' = apiUrl e.
Proof.
  intros Hl He He'. unfold apiUrl. rewrite He, He'.
  change (JS.or (VStr (String c b)) (VStr "")) with (VStr (String c b)).
  change (JS.or (VStr (String c b ++ "/")) (VStr "")) with (VStr (String c b ++ "/")).
  cbn [ToString]. now rewrite drop_final_slash_snoc, drop_final_slash_none.
Qed.

(** ** The further theorems at sample inputs *)

Lemma processTemplate_placeholder_witness :
  processTemplate (VStr "{{ First Name }}!") {[ "First_Name" := VStr "Ann" ]} = "Ann!".
Proof.
  exact (processTemplate_placeholder " " "First Name" " " "!"
           {[ "First_Name" := VStr "Ann" ]} eq_refl eq_refl eq_refl).
Defined.

Lemma processTemplate_plain_prefix_witness :
  processTemplate (VStr "Dear {{Name}}") {[ "Name" := VStr "Ann" ]}
  = "Dear " ++ processTemplate (VStr "{{Name}}") {[ "Name" := VStr "Ann" ]}.
Proof.
  exact (processTemplate_plain_prefix "Dear " "{{Name}}" {[ "Name" := VStr "Ann" ]} eq_refl).
Defined.

Lemma ledger_invariant_witness :
  reachable (store_after (alarm host_ok) (started body_B)) /\
  stored_job (store_after (alarm host_ok) (started body_B)) = Some job_B1 /\
  ledger_ok job_B1.
Proof.
  assert (Hr : reachable (store_after (alarm host_ok) (started body_B))).
  { apply reach_tick. unfold started. apply reach_init. reflexivity. }
  assert (Hj : stored_job (store_after (alarm host_ok) (started body_B)) = Some job_B1).
  { vm_compute. reflexivity. }
  split; [exact Hr|]. split; [exact Hj|].
  exact (ledger_invariant _ job_B1 Hr Hj).
Defined.

Lemma tick_keeps_campaign_witness :
  stored_job (started body_A) = Some job_A0 /\
  exists j', stored_job (store_after (alarm host_storage_down) (started body_A)) = Some j' /\
             same_campaign job_A0 j'.
Proof.
  split; [reflexivity|].
  exact (tick_keeps_campaign host_storage_down (started body_A) job_A0 eq_refl).
Defined.

Lemma cursor_in_range_witness :
  reachable (started body_A) /\
  total job_A0 = Z.of_nat (List.length (recipients job_A0)) /\
  0 <= processed job_A0 /\
  (processed job_A0 < total job_A0 ->
   exists o, recipient_at (recipients job_A0) (processed job_A0) = Some o).
Proof.
  assert (Hr : reachable (started body_A)).
  { unfold started. apply reach_init. reflexivity. }
  split; [exact Hr|].
  exact (cursor_in_range (started body_A) job_A0 Hr eq_refl).
Defined.

Lemma failing_dispatch_no_success_witness :
  truthy (SMTP2GO_API_KEY (env host_no_key)) = false /\
  exists j', stored_job (ticks [host_no_key; host_no_key] (started body_A)) = Some j' /\
             success j' = success job_A0.
Proof.
  assert (Hk : truthy (SMTP2GO_API_KEY (env host_no_key)) = false) by reflexivity.
  assert (Hall : Forall (fun h => truthy (SMTP2GO_API_KEY (env h)) = false \/
                                   forall p, smtp2go h p <> None)
                        [host_no_key; host_no_key]).
  { repeat (apply List.Forall_cons; [left; exact Hk|]). apply List.Forall_nil. }
  split; [exact Hk|].
  exact (failing_dispatch_no_success [host_no_key; host_no_key] (started body_A) job_A0
           Hall eq_refl).
Defined.

Lemma tick_arms_alarm_witness :
  armed (store_after (alarm host_ok) (started body_A)) = armed (started body_A) /\
  existsb is_set_alarm (trace_of (alarm host_ok) (started body_A)) = false.
Proof.
  exact (tick_arms_alarm host_ok (started body_A) job_A0 eq_refl).
Defined.

Lemma scheduled_run_stays_open_witness :
  existsb is_set_alarm
    (trace_of (alarm host_ok) (ticks [] (store_after (init host_ok body_A) empty_storage)))
  = false /\
  exists j,
    stored_job (ticks ([] ++ [host_ok])%list (store_after (init host_ok body_A) empty_storage))
    = Some j /\
    in_progress j = true /\
    processed j = Z.of_nat (List.length (init_recipients body_A)) /\
    total j = Z.of_nat (List.length (init_recipients body_A)) /\
    success j + failed j = Z.of_nat (List.length (init_recipients body_A)).
Proof.
  exact (scheduled_run_stays_open host_ok body_A empty_storage [] host_ok eq_refl
           (List.Forall_nil _) eq_refl eq_refl).
Defined.

Lemma completion_percentage_ends_witness :
  0 < total job_A1 <= 1000 /\
  (processed job_A1 = 0 -> completion_percentage job_A1 = 0) /\
  (processed job_A1 = total job_A1 -> completion_percentage job_A1 = 100).
Proof.
  assert (Ht : 0 < total job_A1 <= 1000) by (simpl; lia).
  split; [exact Ht|]. exact (completion_percentage_ends job_A1 Ht).
Defined.

Lemma JobStore_fetch_read_only_witness :
  let request := mkDoRequest "/job/alarm" "POST" None in
  store_after (JobStore_fetch host_ok request) (started body_A) = started body_A /\
  existsb (fun e => is_put e || is_set_alarm e)
          (trace_of (JobStore_fetch host_ok request) (started body_A)) = false /\
  exists r, outcome_of (JobStore_fetch host_ok request) (started body_A) = Ret r.
Proof.
  exact (JobStore_fetch_read_only host_ok (mkDoRequest "/job/alarm" "POST" None)
           (started body_A) eq_refl).
Defined.

Lemma bulkStatus_unknown_witness :
  reply (bulkStatus sample_platform "no-such-job" ∅)
  = Ret (failure_json 404 "Job not found") /\
  mails (bulkStatus sample_platform "no-such-job" ∅) = [] /\
  forall name,
    storage_of (spaces (bulkStatus sample_platform "no-such-job" ∅)) name = storage_of ∅ name.
Proof.
  exact (bulkStatus_unknown sample_platform "no-such-job" ∅ eq_refl).
Defined.

Lemma create_then_status_witness :
  exists n iv view,
    WObj [("success", WBool true); ("job_id", WStr (randomUUID sample_platform));
          ("details", WObj [("total_emails", WNum 2); ("interval", WNum 2)])]
    = WObj [("success", WBool true); ("job_id", WStr (randomUUID sample_platform));
            ("details", WObj [("total_emails", WNum n); ("interval", iv)])] /\
    reply (handle sample_platform (status_request (randomUUID sample_platform))
                  (spaces (bulkCreate sample_platform bulk_request ∅)))
    = Ret (Json 200 (WObj [("success", WBool true); ("status", WView view)])) /\
    obj_get "id" view = Some (FStr (randomUUID sample_platform)) /\
    obj_get "total" view = Some (FNum n) /\
    obj_get "processed" view = Some (FNum 0) /\
    obj_get "in_progress" view = Some (FBool true) /\
    obj_get "recipients" view = None.
Proof.
  assert (Hr : reply (bulkCreate sample_platform bulk_request ∅)
               = Ret (Json 200
                        (WObj [("success", WBool true);
                               ("job_id", WStr (randomUUID sample_platform));
                               ("details",
                                WObj [("total_emails", WNum 2); ("interval", WNum 2)])])))
    by (vm_compute; reflexivity).
  exact (create_then_status sample_platform sample_platform bulk_request ∅ _
           None JsonNull [] [] Hr eq_refl).
Defined.

Lemma handle_keeps_jobs_witness :
  storage_of (spaces (handle sample_platform text_request
                             (spaces (bulkCreate sample_platform bulk_request ∅))))
             (randomUUID sample_platform)
  = storage_of (spaces (bulkCreate sample_platform bulk_request ∅))
               (randomUUID sample_platform).
Proof.
  exact (handle_keeps_jobs sample_platform text_request
           (spaces (bulkCreate sample_platform bulk_request ∅))
           (randomUUID sample_platform) (or_intror eq_refl)).
Defined.

Lemma unread_body_is_rejected_witness :
  singleSend sample_platform text_request ∅
  = mkWOutcome (Ret (failure_json 400 "Missing required fields.")) ∅ [] /\
  bulkCreate sample_platform text_request ∅
  = mkWOutcome (Ret (failure_json 400 "Missing recipients JSON.")) ∅ [].
Proof.
  exact (unread_body_is_rejected sample_platform text_request ∅ eq_refl eq_refl eq_refl).
Defined.

Lemma apiUrl_final_slash_witness :
  let e := env host_ok in
  let e' := mkEnv (VStr "https://api.smtp2go.com/v3/") (VStr "key") VUndef VUndef in
  apiUrl e = "https://api.smtp2go.com/v3/email/send" /\ apiUrl e' = apiUrl e.
Proof.
  exact (apiUrl_final_slash (env host_ok)
           (mkEnv (VStr "https://api.smtp2go.com/v3/") (VStr "key") VUndef VUndef)
           "h" "ttps://api.smtp2go.com/v3" eq_refl eq_refl eq_refl).
Defined.
